(** * fastjsond C API: a shallow embedding of [api.cpp] / [api.h]

    The C layer wraps the simdjson DOM engine behind opaque handles, a closed
    error enumeration and by-value [fj_value] pairs.  The engine itself is
    an external collaborator: it appears here as the interface [Engine];
    everything in [api.cpp] is translated function by function on top
    of it. *)

From Stdlib Require Import ZArith NArith Lia.
From stdpp Require Import base option list strings gmap.

Local Open Scope Z_scope.

(** ** Error codes *)

(** [simdjson::error_code], as far as [api.cpp] names it: one constructor per
    [case] label of [map_error].  Any other value of the engine's enumeration
    (codes this layer does not list) is [UNLISTED_CODE n]; such a code is by
    construction different from [SUCCESS]. *)
Inductive error_code : Type :=
  | SUCCESS | CAPACITY | MEMALLOC | TAPE_ERROR | DEPTH_ERROR | STRING_ERROR
  | T_ATOM_ERROR | F_ATOM_ERROR | N_ATOM_ERROR | NUMBER_ERROR | UTF8_ERROR
  | UNINITIALIZED | EMPTY | UNESCAPED_CHARS | UNCLOSED_STRING
  | UNSUPPORTED_ARCHITECTURE | INCORRECT_TYPE | NUMBER_OUT_OF_RANGE
  | INDEX_OUT_OF_BOUNDS | NO_SUCH_FIELD | IO_ERROR | INVALID_JSON_POINTER
  | INVALID_URI_FRAGMENT | UNEXPECTED_ERROR | PARSER_IN_USE
  | OUT_OF_ORDER_ITERATION | INSUFFICIENT_PADDING | INCOMPLETE_ARRAY_OR_OBJECT
  | SCALAR_DOCUMENT_AS_VALUE | OUT_OF_BOUNDS | TRAILING_CONTENT
  | UNLISTED_CODE (n : Z).

(** The truth value of an [error_code] in [if (result.error())]. *)
Definition is_error (e : error_code) : bool :=
  match e with SUCCESS => false | _ => true end.

(** [enum fj_error_e] of [api.h]. *)
Inductive fj_error : Type :=
  | FJ_SUCCESS
  | FJ_ERROR_CAPACITY | FJ_ERROR_MEMALLOC | FJ_ERROR_TAPE_ERROR
  | FJ_ERROR_DEPTH_ERROR | FJ_ERROR_STRING_ERROR | FJ_ERROR_T_ATOM_ERROR
  | FJ_ERROR_F_ATOM_ERROR | FJ_ERROR_N_ATOM_ERROR | FJ_ERROR_NUMBER_ERROR
  | FJ_ERROR_UTF8_ERROR | FJ_ERROR_UNINITIALIZED | FJ_ERROR_EMPTY
  | FJ_ERROR_UNESCAPED_CHARS | FJ_ERROR_UNCLOSED_STRING
  | FJ_ERROR_UNSUPPORTED_ARCH | FJ_ERROR_INCORRECT_TYPE
  | FJ_ERROR_NUMBER_OUT_OF_RANGE | FJ_ERROR_INDEX_OUT_OF_BOUNDS
  | FJ_ERROR_NO_SUCH_FIELD | FJ_ERROR_IO_ERROR | FJ_ERROR_INVALID_JSON_POINTER
  | FJ_ERROR_INVALID_URI_FRAGMENT | FJ_ERROR_UNEXPECTED_ERROR
  | FJ_ERROR_PARSER_IN_USE | FJ_ERROR_OUT_OF_ORDER_ITERATION
  | FJ_ERROR_INSUFFICIENT_PADDING | FJ_ERROR_INCOMPLETE_ARRAY_OR_OBJECT
  | FJ_ERROR_SCALAR_DOCUMENT_AS_VALUE | FJ_ERROR_OUT_OF_BOUNDS
  | FJ_ERROR_TRAILING_CONTENT
  | FJ_ERROR_UNKNOWN.

(** The integer value of each enumerator: [FJ_SUCCESS = 0], the following
    ones count upwards, [FJ_ERROR_UNKNOWN = 255]. *)
Definition fj_error_value (e : fj_error) : Z :=
  match e with
  | FJ_SUCCESS => 0
  | FJ_ERROR_CAPACITY => 1 | FJ_ERROR_MEMALLOC => 2 | FJ_ERROR_TAPE_ERROR => 3
  | FJ_ERROR_DEPTH_ERROR => 4 | FJ_ERROR_STRING_ERROR => 5
  | FJ_ERROR_T_ATOM_ERROR => 6 | FJ_ERROR_F_ATOM_ERROR => 7
  | FJ_ERROR_N_ATOM_ERROR => 8 | FJ_ERROR_NUMBER_ERROR => 9
  | FJ_ERROR_UTF8_ERROR => 10 | FJ_ERROR_UNINITIALIZED => 11
  | FJ_ERROR_EMPTY => 12 | FJ_ERROR_UNESCAPED_CHARS => 13
  | FJ_ERROR_UNCLOSED_STRING => 14 | FJ_ERROR_UNSUPPORTED_ARCH => 15
  | FJ_ERROR_INCORRECT_TYPE => 16 | FJ_ERROR_NUMBER_OUT_OF_RANGE => 17
  | FJ_ERROR_INDEX_OUT_OF_BOUNDS => 18 | FJ_ERROR_NO_SUCH_FIELD => 19
  | FJ_ERROR_IO_ERROR => 20 | FJ_ERROR_INVALID_JSON_POINTER => 21
  | FJ_ERROR_INVALID_URI_FRAGMENT => 22 | FJ_ERROR_UNEXPECTED_ERROR => 23
  | FJ_ERROR_PARSER_IN_USE => 24 | FJ_ERROR_OUT_OF_ORDER_ITERATION => 25
  | FJ_ERROR_INSUFFICIENT_PADDING => 26
  | FJ_ERROR_INCOMPLETE_ARRAY_OR_OBJECT => 27
  | FJ_ERROR_SCALAR_DOCUMENT_AS_VALUE => 28 | FJ_ERROR_OUT_OF_BOUNDS => 29
  | FJ_ERROR_TRAILING_CONTENT => 30
  | FJ_ERROR_UNKNOWN => 255
  end.

(** All enumerators, in declaration order. *)
Definition fj_error_kinds : list fj_error :=
  [ FJ_SUCCESS; FJ_ERROR_CAPACITY; FJ_ERROR_MEMALLOC; FJ_ERROR_TAPE_ERROR;
    FJ_ERROR_DEPTH_ERROR; FJ_ERROR_STRING_ERROR; FJ_ERROR_T_ATOM_ERROR;
    FJ_ERROR_F_ATOM_ERROR; FJ_ERROR_N_ATOM_ERROR; FJ_ERROR_NUMBER_ERROR;
    FJ_ERROR_UTF8_ERROR; FJ_ERROR_UNINITIALIZED; FJ_ERROR_EMPTY;
    FJ_ERROR_UNESCAPED_CHARS; FJ_ERROR_UNCLOSED_STRING;
    FJ_ERROR_UNSUPPORTED_ARCH; FJ_ERROR_INCORRECT_TYPE;
    FJ_ERROR_NUMBER_OUT_OF_RANGE; FJ_ERROR_INDEX_OUT_OF_BOUNDS;
    FJ_ERROR_NO_SUCH_FIELD; FJ_ERROR_IO_ERROR; FJ_ERROR_INVALID_JSON_POINTER;
    FJ_ERROR_INVALID_URI_FRAGMENT; FJ_ERROR_UNEXPECTED_ERROR;
    FJ_ERROR_PARSER_IN_USE; FJ_ERROR_OUT_OF_ORDER_ITERATION;
    FJ_ERROR_INSUFFICIENT_PADDING; FJ_ERROR_INCOMPLETE_ARRAY_OR_OBJECT;
    FJ_ERROR_SCALAR_DOCUMENT_AS_VALUE; FJ_ERROR_OUT_OF_BOUNDS;
    FJ_ERROR_TRAILING_CONTENT; FJ_ERROR_UNKNOWN ].

(** [static fj_error map_error(error_code err)]. *)
Definition map_error (err : error_code) : fj_error :=
  match err with
  | SUCCESS => FJ_SUCCESS
  | CAPACITY => FJ_ERROR_CAPACITY
  | MEMALLOC => FJ_ERROR_MEMALLOC
  | TAPE_ERROR => FJ_ERROR_TAPE_ERROR
  | DEPTH_ERROR => FJ_ERROR_DEPTH_ERROR
  | STRING_ERROR => FJ_ERROR_STRING_ERROR
  | T_ATOM_ERROR => FJ_ERROR_T_ATOM_ERROR
  | F_ATOM_ERROR => FJ_ERROR_F_ATOM_ERROR
  | N_ATOM_ERROR => FJ_ERROR_N_ATOM_ERROR
  | NUMBER_ERROR => FJ_ERROR_NUMBER_ERROR
  | UTF8_ERROR => FJ_ERROR_UTF8_ERROR
  | UNINITIALIZED => FJ_ERROR_UNINITIALIZED
  | EMPTY => FJ_ERROR_EMPTY
  | UNESCAPED_CHARS => FJ_ERROR_UNESCAPED_CHARS
  | UNCLOSED_STRING => FJ_ERROR_UNCLOSED_STRING
  | UNSUPPORTED_ARCHITECTURE => FJ_ERROR_UNSUPPORTED_ARCH
  | INCORRECT_TYPE => FJ_ERROR_INCORRECT_TYPE
  | NUMBER_OUT_OF_RANGE => FJ_ERROR_NUMBER_OUT_OF_RANGE
  | INDEX_OUT_OF_BOUNDS => FJ_ERROR_INDEX_OUT_OF_BOUNDS
  | NO_SUCH_FIELD => FJ_ERROR_NO_SUCH_FIELD
  | IO_ERROR => FJ_ERROR_IO_ERROR
  | INVALID_JSON_POINTER => FJ_ERROR_INVALID_JSON_POINTER
  | INVALID_URI_FRAGMENT => FJ_ERROR_INVALID_URI_FRAGMENT
  | UNEXPECTED_ERROR => FJ_ERROR_UNEXPECTED_ERROR
  | PARSER_IN_USE => FJ_ERROR_PARSER_IN_USE
  | OUT_OF_ORDER_ITERATION => FJ_ERROR_OUT_OF_ORDER_ITERATION
  | INSUFFICIENT_PADDING => FJ_ERROR_INSUFFICIENT_PADDING
  | INCOMPLETE_ARRAY_OR_OBJECT => FJ_ERROR_INCOMPLETE_ARRAY_OR_OBJECT
  | SCALAR_DOCUMENT_AS_VALUE => FJ_ERROR_SCALAR_DOCUMENT_AS_VALUE
  | OUT_OF_BOUNDS => FJ_ERROR_OUT_OF_BOUNDS
  | TRAILING_CONTENT => FJ_ERROR_TRAILING_CONTENT
  | UNLISTED_CODE _ => FJ_ERROR_UNKNOWN
  end.

(** The [static const char* messages[]] table of [fj_error_message]. *)
Definition messages : list string :=
  [ "Success";
    "Document too large";
    "Memory allocation failed";
    "Internal tape error";
    "Document too deep";
    "Invalid string";
    "Invalid 'true' atom";
    "Invalid 'false' atom";
    "Invalid 'null' atom";
    "Invalid number";
    "Invalid UTF-8 encoding";
    "Parser not initialized";
    "Empty input";
    "Unescaped control characters in string";
    "Unclosed string";
    "Unsupported architecture";
    "Incorrect type";
    "Number out of range";
    "Array index out of bounds";
    "Object field not found";
    "I/O error";
    "Invalid JSON pointer";
    "Invalid URI fragment";
    "Unexpected error";
    "Parser already in use";
    "Out of order iteration";
    "Insufficient padding";
    "Incomplete array or object";
    "Scalar document as value";
    "Out of bounds";
    "Trailing content after JSON" ]%string.

(** An enumeration argument travels as four bytes, and the comparisons and
    the subscript in [fj_error_message] see it promoted to [int]: [to_int]
    is the [int] a 4-byte pattern stands for, whichever integer names the
    pattern (wrap-around into [-2^31, 2^31)). *)
Definition to_int (z : Z) : Z := (z + 2 ^ 31) mod 2 ^ 32 - 2 ^ 31.

(** [const char* fj_error_message(fj_error err)].  The result is the returned
    pointer; [None] stands for the read of [messages[err]] with a negative
    [err], before the start of the table, which neither test of the guard
    excludes. *)
Definition fj_error_message (err : Z) : option string :=
  let e := to_int err in
  if (e =? fj_error_value FJ_ERROR_UNKNOWN)
     || (e >? fj_error_value FJ_ERROR_TRAILING_CONTENT)
  then Some "Unknown error"%string
  else if e <? 0 then None
  else messages !! Z.to_nat e.

(** ** JSON types *)

(** [simdjson::dom::element_type]; a value of the enumeration that [map_type]
    has no [case] for is [UNLISTED_TYPE c]. *)
Inductive element_type : Type :=
  | NULL_VALUE | BOOL | INT64 | UINT64 | DOUBLE | STRING | ARRAY | OBJECT
  | UNLISTED_TYPE (c : Z).

(** [enum fj_type_e] of [api.h]. *)
Inductive fj_type : Type :=
  | FJ_TYPE_NULL | FJ_TYPE_BOOL | FJ_TYPE_INT64 | FJ_TYPE_UINT64
  | FJ_TYPE_DOUBLE | FJ_TYPE_STRING | FJ_TYPE_ARRAY | FJ_TYPE_OBJECT.

(** [static fj_type map_type(dom::element_type t)]. *)
Definition map_type (t : element_type) : fj_type :=
  match t with
  | NULL_VALUE => FJ_TYPE_NULL
  | BOOL => FJ_TYPE_BOOL
  | INT64 => FJ_TYPE_INT64
  | UINT64 => FJ_TYPE_UINT64
  | DOUBLE => FJ_TYPE_DOUBLE
  | STRING => FJ_TYPE_STRING
  | ARRAY => FJ_TYPE_ARRAY
  | OBJECT => FJ_TYPE_OBJECT
  | UNLISTED_TYPE _ => FJ_TYPE_NULL
  end.

(** ** The engine interface *)

(** [simdjson::simdjson_result<T>]: a value paired with an error code; the
    value is meaningful only when the code is [SUCCESS]. *)
Record simdjson_result (T : Type) : Type :=
  mk_result { result_value : T; result_error : error_code }.
Arguments mk_result {T} _ _.
Arguments result_value {T} _.
Arguments result_error {T} _.

(** The configuration of a [dom::parser] this layer touches. *)
Record dom_parser : Type := { max_capacity : N }.

(** What [api.cpp] uses of simdjson.  A [dom::array] is presented as the list
    of its children and a [dom::object] as the list of its fields, in document
    order; a [double] is carried opaquely as its 64-bit pattern. *)
Class Engine : Type := {
  element : Type;
  default_element : element;                        (* dom::element() *)
  el_type : element -> element_type;                (* element::type() *)
  is_null : element -> bool;
  is_bool : element -> bool;
  is_int64 : element -> bool;
  is_uint64 : element -> bool;
  is_double : element -> bool;
  is_string : element -> bool;
  is_array : element -> bool;
  is_object : element -> bool;
  get_bool : element -> simdjson_result bool;
  get_int64 : element -> simdjson_result Z;
  get_uint64 : element -> simdjson_result Z;
  get_double : element -> simdjson_result Z;
  get_string : element -> simdjson_result string;
  get_array : element -> simdjson_result (list element);
  get_object : element -> simdjson_result (list (string * element));
  (* dom::parser::parse(buf, len) *)
  parser_parse : dom_parser -> string -> N -> simdjson_result element;
  (* simdjson::minify(buf, len, dst, dst_len): the code, the bytes left in
     [dst] and the value left in [dst_len] (given its previous value) *)
  simdjson_minify : string -> N -> N -> error_code * string * N;
  SIMDJSON_PADDING : N;
  SIMDJSON_MAXSIZE_BYTES : N;
  active_implementation_name : string
}.

Section Api.
Context `{Engine}.

(** Modelled from the spec: [dom::array::at(i)], which lives in simdjson and
    not under this repository's sources.  It yields the [i]-th child and
    fails with [INDEX_OUT_OF_BOUNDS] past the end (getIndex: Value or
    IndexOutOfBounds); [size()] is the number of children. *)
Definition array_at (a : list element) (idx : N) : simdjson_result element :=
  match a !! N.to_nat idx with
  | Some e => mk_result e SUCCESS
  | None => mk_result default_element INDEX_OUT_OF_BOUNDS
  end.

(** Modelled from the spec: [dom::object::operator[](key)], which lives in
    simdjson and not under this repository's sources.  It yields the first
    field with that key and fails with [NO_SUCH_FIELD] when there is none
    (getField: Value or NoSuchField). *)
Fixpoint object_at_key (o : list (string * element)) (key : string)
  : simdjson_result element :=
  match o with
  | [] => mk_result default_element NO_SUCH_FIELD
  | (k, e) :: fields =>
      if String.eqb k key then mk_result e SUCCESS
      else object_at_key fields key
  end.

(** The bytes of a NUL-terminated [const char*]: everything before the first
    zero byte. *)
Fixpoint c_str (s : string) : string :=
  match s with
  | EmptyString => EmptyString
  | String c s' =>
      if Ascii.eqb c Ascii.zero then EmptyString else String c (c_str s')
  end.

(** [std::string_view(key, key_len)]. *)
Definition string_view (key : string) (key_len : N) : string :=
  String.substring 0 (N.to_nat key_len) key.

(** ** Handles and values *)

(** A pointer is [None] when null.  Opaque handles are addresses of objects
    made by [new]. *)
Definition fj_parser : Type := option positive.
Definition fj_document : Type := option positive.
Definition fj_array_iter : Type := option positive.
Definition fj_object_iter : Type := option positive.

Definition nullptr {A : Type} : option A := None.

Definition is_nullptr {A : Type} (p : option A) : bool :=
  match p with None => true | Some _ => false end.

(** An out-parameter [T* out]: null, or the address of a caller's cell with
    its present content. *)
Inductive out_param (T : Type) : Type :=
  | null_out
  | out_cell (content : T).
Arguments null_out {T}.
Arguments out_cell {T} _.

Definition is_null_out {T : Type} (o : out_param T) : bool :=
  match o with null_out => true | out_cell _ => false end.

(** [*out = x]. *)
Definition assign {T : Type} (o : out_param T) (x : T) : out_param T :=
  match o with null_out => null_out | out_cell _ => out_cell x end.

(** Each function that hands back a derived value has its own
    [static thread_local dom::element stored_elements[256]] and
    [static thread_local size_t stored_idx]; a pool is named after its
    function. *)
Inductive pool_id : Type :=
  | in_get_field | in_get_field_len | in_get_index
  | in_array_iter_next | in_object_iter_next.

Definition pool_id_eqb (p q : pool_id) : bool :=
  match p, q with
  | in_get_field, in_get_field
  | in_get_field_len, in_get_field_len
  | in_get_index, in_get_index
  | in_array_iter_next, in_array_iter_next
  | in_object_iter_next, in_object_iter_next => true
  | _, _ => false
  end.

(** What [fj_value::impl] can point to: [&doc->root] of a document, or
    [&stored_elements[i]] of one of the pools. *)
Inductive element_ptr : Type :=
  | root_of (d : positive)
  | slot_of (p : pool_id) (i : N).

(** [struct fj_value_s { void* impl; void* doc; }]. *)
Record fj_value : Type := { impl : option element_ptr; doc : option positive }.

(** ** Internal structures *)

Record fj_parser_s : Type := { parser : dom_parser }.

Record fj_document_s : Type := { root : element; error : fj_error }.

(** Iterator positions are indices into the children. *)
Record fj_array_iter_s : Type :=
  { array : list element; a_current : nat; a_end : nat }.

Record fj_object_iter_s : Type :=
  { object : list (string * element); o_current : nat; o_end : nat }.

Record slot_pool : Type :=
  { stored_elements : list element; stored_idx : N }.

(** The calling thread's five pools. *)
Record thread_locals : Type := {
  tl_get_field : slot_pool;
  tl_get_field_len : slot_pool;
  tl_get_index : slot_pool;
  tl_array_iter_next : slot_pool;
  tl_object_iter_next : slot_pool
}.

Definition pool (p : pool_id) (t : thread_locals) : slot_pool :=
  match p with
  | in_get_field => tl_get_field t
  | in_get_field_len => tl_get_field_len t
  | in_get_index => tl_get_index t
  | in_array_iter_next => tl_array_iter_next t
  | in_object_iter_next => tl_object_iter_next t
  end.

Definition set_pool (p : pool_id) (s : slot_pool) (t : thread_locals)
  : thread_locals :=
  match p with
  | in_get_field =>
      {| tl_get_field := s; tl_get_field_len := tl_get_field_len t;
         tl_get_index := tl_get_index t;
         tl_array_iter_next := tl_array_iter_next t;
         tl_object_iter_next := tl_object_iter_next t |}
  | in_get_field_len =>
      {| tl_get_field := tl_get_field t; tl_get_field_len := s;
         tl_get_index := tl_get_index t;
         tl_array_iter_next := tl_array_iter_next t;
         tl_object_iter_next := tl_object_iter_next t |}
  | in_get_index =>
      {| tl_get_field := tl_get_field t;
         tl_get_field_len := tl_get_field_len t; tl_get_index := s;
         tl_array_iter_next := tl_array_iter_next t;
         tl_object_iter_next := tl_object_iter_next t |}
  | in_array_iter_next =>
      {| tl_get_field := tl_get_field t;
         tl_get_field_len := tl_get_field_len t;
         tl_get_index := tl_get_index t; tl_array_iter_next := s;
         tl_object_iter_next := tl_object_iter_next t |}
  | in_object_iter_next =>
      {| tl_get_field := tl_get_field t;
         tl_get_field_len := tl_get_field_len t;
         tl_get_index := tl_get_index t;
         tl_array_iter_next := tl_array_iter_next t; tl_object_iter_next := s |}
  end.

(** ** The program state

    The objects made by [new], the calling thread's thread-local storage,
    the file-scope [cached_impl_name], and a script saying which of the
    coming allocations fail ([false]: [new] throws). *)
Record world : Type := {
  parsers : gmap positive fj_parser_s;
  documents : gmap positive fj_document_s;
  array_iters : gmap positive fj_array_iter_s;
  object_iters : gmap positive fj_object_iter_s;
  tls : thread_locals;
  cached_impl_name : option string;
  alloc_script : list bool
}.

Definition empty_pool : slot_pool :=
  {| stored_elements := replicate 256 default_element; stored_idx := 0 |}.

(** The state at program start. *)
Definition initial_world (script : list bool) : world :=
  {| parsers := ∅; documents := ∅; array_iters := ∅; object_iters := ∅;
     tls := {| tl_get_field := empty_pool; tl_get_field_len := empty_pool;
               tl_get_index := empty_pool; tl_array_iter_next := empty_pool;
               tl_object_iter_next := empty_pool |};
     cached_impl_name := None;
     alloc_script := script |}.

Definition set_parsers (m : gmap positive fj_parser_s) (w : world) : world :=
  {| parsers := m; documents := documents w; array_iters := array_iters w;
     object_iters := object_iters w; tls := tls w;
     cached_impl_name := cached_impl_name w; alloc_script := alloc_script w |}.

Definition set_documents (m : gmap positive fj_document_s) (w : world)
  : world :=
  {| parsers := parsers w; documents := m; array_iters := array_iters w;
     object_iters := object_iters w; tls := tls w;
     cached_impl_name := cached_impl_name w; alloc_script := alloc_script w |}.

Definition set_array_iters (m : gmap positive fj_array_iter_s) (w : world)
  : world :=
  {| parsers := parsers w; documents := documents w; array_iters := m;
     object_iters := object_iters w; tls := tls w;
     cached_impl_name := cached_impl_name w; alloc_script := alloc_script w |}.

Definition set_object_iters (m : gmap positive fj_object_iter_s) (w : world)
  : world :=
  {| parsers := parsers w; documents := documents w;
     array_iters := array_iters w; object_iters := m; tls := tls w;
     cached_impl_name := cached_impl_name w; alloc_script := alloc_script w |}.

Definition set_tls (t : thread_locals) (w : world) : world :=
  {| parsers := parsers w; documents := documents w;
     array_iters := array_iters w; object_iters := object_iters w; tls := t;
     cached_impl_name := cached_impl_name w; alloc_script := alloc_script w |}.

Definition set_cached_impl_name (n : option string) (w : world) : world :=
  {| parsers := parsers w; documents := documents w;
     array_iters := array_iters w; object_iters := object_iters w;
     tls := tls w; cached_impl_name := n; alloc_script := alloc_script w |}.

Definition set_alloc_script (s : list bool) (w : world) : world :=
  {| parsers := parsers w; documents := documents w;
     array_iters := array_iters w; object_iters := object_iters w;
     tls := tls w; cached_impl_name := cached_impl_name w; alloc_script := s |}.

(** ** Computations

    A call either returns, leaves by a C++ exception, or has no defined
    behaviour (it dereferenced a handle to an object that is gone). *)
Inductive outcome (A : Type) : Type :=
  | Returns (a : A) (w : world)
  | Throws (w : world)
  | Undefined.
Arguments Returns {A} _ _.
Arguments Throws {A} _.
Arguments Undefined {A}.

Definition M (A : Type) : Type := world -> outcome A.

Definition ret {A : Type} (a : A) : M A := fun w => Returns a w.

Definition bind {A B : Type} (m : M A) (k : A -> M B) : M B :=
  fun w =>
    match m w with
    | Returns a w' => k a w'
    | Throws w' => Throws w'
    | Undefined => Undefined
    end.

(** [try { body } catch (...) { handler }]. *)
Definition try_catch {A : Type} (body handler : M A) : M A :=
  fun w =>
    match body w with
    | Throws w' => handler w'
    | o => o
    end.

Notation "x <- c1 ;; c2" := (bind c1 (fun x => c2))
  (at level 100, c1 at next level, right associativity).

(** [operator new]: consumes one entry of the allocation script and throws
    [std::bad_alloc] when that entry says so. *)
Definition operator_new : M unit :=
  fun w =>
    match alloc_script w with
    | false :: s => Throws (set_alloc_script s w)
    | true :: s => Returns tt (set_alloc_script s w)
    | [] => Returns tt w
    end.

(** Reading the element behind a non-null [impl] pointer. *)
Definition load_element (q : element_ptr) (w : world) : option element :=
  match q with
  | root_of d => root <$> documents w !! d
  | slot_of p i => stored_elements (pool p (tls w)) !! N.to_nat i
  end.

(** [*get_element(v)], for [v.impl] known to be non-null. *)
Definition get_element (v : fj_value) : M element :=
  fun w =>
    match impl v with
    | Some q =>
        match load_element q w with
        | Some e => Returns e w
        | None => Undefined
        end
    | None => Undefined
    end.

(** The four lines every deriving function repeats on its own pool:
[[
    stored_idx = (stored_idx + 1) % 256;
    stored_elements[stored_idx] = e;
    ... &stored_elements[stored_idx]
]] *)
Definition store_element (p : pool_id) (e : element) : M element_ptr :=
  fun w =>
    let s := pool p (tls w) in
    let idx := ((stored_idx s + 1) mod 256)%N in
    let s' := {| stored_elements := <[N.to_nat idx := e]> (stored_elements s);
                 stored_idx := idx |} in
    Returns (slot_of p idx) (set_tls (set_pool p s' (tls w)) w).

(** The thread-local storage after [store_element p e]. *)
Definition pool_write (p : pool_id) (e : element) (t : thread_locals)
  : thread_locals :=
  let idx := ((stored_idx (pool p t) + 1) mod 256)%N in
  set_pool p
    {| stored_elements := <[N.to_nat idx := e]> (stored_elements (pool p t));
       stored_idx := idx |} t.

(** Every [stored_elements] array has its 256 cells. *)
Definition pools_sized (w : world) : Prop :=
  forall p, length (stored_elements (pool p (tls w))) = 256%nat.

(** [*p] for an object made by [new]: undefined when [p] is null or the
    object is gone. *)
Definition load {T : Type} (heap : world -> gmap positive T)
    (p : option positive) : M T :=
  fun w =>
    match p with
    | Some a =>
        match heap w !! a with
        | Some x => Returns x w
        | None => Undefined
        end
    | None => Undefined
    end.

(** [*p = x] for an object made by [new]. *)
Definition store {T : Type} (heap : world -> gmap positive T)
    (set_heap : gmap positive T -> world -> world)
    (p : option positive) (x : T) : M unit :=
  fun w =>
    match p with
    | Some a =>
        match heap w !! a with
        | Some _ => Returns tt (set_heap (<[a := x]> (heap w)) w)
        | None => Undefined
        end
    | None => Undefined
    end.

(** [new T(...)]: the new object gets an address no live object of its kind
    has. *)
Definition new_object {T : Type} (heap : world -> gmap positive T)
    (set_heap : gmap positive T -> world -> world) (x : T) : M positive :=
  _ <- operator_new ;;
  fun w =>
    let a := fresh (dom (heap w)) in
    Returns a (set_heap (<[a := x]> (heap w)) w).

(** [delete p]: nothing for a null pointer. *)
Definition delete_object {T : Type} (heap : world -> gmap positive T)
    (set_heap : gmap positive T -> world -> world) (p : option positive)
  : M unit :=
  fun w =>
    match p with
    | None => Returns tt w
    | Some a =>
        match heap w !! a with
        | Some _ => Returns tt (set_heap (delete a (heap w)) w)
        | None => Undefined
        end
    end.

(** The bytes behind a non-null [const char*]. *)
Definition bytes_at (p : option string) : M string :=
  fun w => match p with Some s => Returns s w | None => Undefined end.

(** The content of the cell behind a non-null out-parameter. *)
Definition content_of {T : Type} (o : out_param T) : M T :=
  fun w => match o with out_cell x => Returns x w | null_out => Undefined end.

(** ** Parser functions *)

(** [fj_parser_s(size_t max_capacity)]. *)
Definition fj_parser_s_ctor (capacity : N) : fj_parser_s :=
  {| parser :=
       if (0 <? capacity)%N then {| max_capacity := capacity |}
       else {| max_capacity := SIMDJSON_MAXSIZE_BYTES |} |}.

Definition fj_parser_new (capacity : N) : M fj_parser :=
  try_catch
    (a <- new_object parsers set_parsers (fj_parser_s_ctor capacity) ;;
     ret (Some a))
    (ret nullptr).

Definition fj_parser_free (p : fj_parser) : M unit :=
  delete_object parsers set_parsers p.

(** [fj_document_s() : error(FJ_SUCCESS) {}]. *)
Definition fj_document_s_ctor : fj_document_s :=
  {| root := default_element; error := FJ_SUCCESS |}.

Definition fj_parser_parse (p : fj_parser) (json : option string) (len : N)
    (doc : out_param fj_document) : M (fj_error * out_param fj_document) :=
  if is_nullptr p || is_nullptr json || is_null_out doc then
    ret (FJ_ERROR_UNINITIALIZED, doc)
  else
    try_catch
      (ps <- load parsers p ;;
       buf <- bytes_at json ;;
       let result := parser_parse (parser ps) buf len in
       if is_error (result_error result) then
         ret (map_error (result_error result), assign doc nullptr)
       else
         d <- new_object documents set_documents fj_document_s_ctor ;;
         ds <- load documents (Some d) ;;
         _ <- store documents set_documents (Some d)
                {| root := result_value result; error := error ds |} ;;
         ds <- load documents (Some d) ;;
         _ <- store documents set_documents (Some d)
                {| root := root ds; error := FJ_SUCCESS |} ;;
         ret (FJ_SUCCESS, assign doc (Some d)))
      (ret (FJ_ERROR_UNEXPECTED_ERROR, assign doc nullptr)).

Definition fj_parser_parse_padded (p : fj_parser) (json : option string)
    (len : N) (doc : out_param fj_document)
  : M (fj_error * out_param fj_document) :=
  fj_parser_parse p json len doc.

(** ** Document functions *)

Definition fj_document_free (d : fj_document) : M unit :=
  delete_object documents set_documents d.

Definition fj_document_root (d : fj_document) : fj_value :=
  {| impl := match d with Some a => Some (root_of a) | None => nullptr end;
     doc := d |}.

Definition fj_document_error (d : fj_document) : M fj_error :=
  if is_nullptr d then ret FJ_ERROR_UNINITIALIZED
  else ds <- load documents d ;; ret (error ds).

(** ** Value type functions *)

Definition fj_value_type (v : fj_value) : M fj_type :=
  if is_nullptr (impl v) then ret FJ_TYPE_NULL
  else e <- get_element v ;; ret (map_type (el_type e)).

(** [v.impl && get_element(v)->is_xxx()]. *)
Definition value_is (is_xxx : element -> bool) (v : fj_value) : M bool :=
  if is_nullptr (impl v) then ret false
  else e <- get_element v ;; ret (is_xxx e).

Definition fj_value_is_null : fj_value -> M bool := value_is is_null.
Definition fj_value_is_bool : fj_value -> M bool := value_is is_bool.
Definition fj_value_is_int64 : fj_value -> M bool := value_is is_int64.
Definition fj_value_is_uint64 : fj_value -> M bool := value_is is_uint64.
Definition fj_value_is_double : fj_value -> M bool := value_is is_double.
Definition fj_value_is_string : fj_value -> M bool := value_is is_string.
Definition fj_value_is_array : fj_value -> M bool := value_is is_array.
Definition fj_value_is_object : fj_value -> M bool := value_is is_object.

Definition fj_value_is_number (v : fj_value) : M bool :=
  if is_nullptr (impl v) then ret false
  else
    e <- get_element v ;;
    ret (match el_type e with
         | INT64 | UINT64 | DOUBLE => true
         | _ => false
         end).

(** ** Value extraction functions *)

(** The body shared by [fj_value_get_bool], [_int64], [_uint64] and
    [_double], which differ in the engine getter only. *)
Definition value_get {T : Type} (getter : element -> simdjson_result T)
    (v : fj_value) (out : out_param T) : M (fj_error * out_param T) :=
  if is_nullptr (impl v) || is_null_out out then
    ret (FJ_ERROR_UNINITIALIZED, out)
  else
    e <- get_element v ;;
    let result := getter e in
    if is_error (result_error result) then
      ret (map_error (result_error result), out)
    else ret (FJ_SUCCESS, assign out (result_value result)).

Definition fj_value_get_bool := value_get get_bool.
Definition fj_value_get_int64 := value_get get_int64.
Definition fj_value_get_uint64 := value_get get_uint64.
Definition fj_value_get_double := value_get get_double.

Definition fj_value_get_string (v : fj_value) (out : out_param string)
    (len : out_param N) : M (fj_error * out_param string * out_param N) :=
  if is_nullptr (impl v) || is_null_out out || is_null_out len then
    ret (FJ_ERROR_UNINITIALIZED, out, len)
  else
    e <- get_element v ;;
    let result := get_string e in
    if is_error (result_error result) then
      ret (map_error (result_error result), out, len)
    else
      let sv := result_value result in
      ret (FJ_SUCCESS, assign out sv, assign len (N.of_nat (String.length sv))).

(** ** Object access functions *)

Definition fj_value_get_field (v : fj_value) (key : option string)
    (out : out_param fj_value) : M (fj_error * out_param fj_value) :=
  if is_nullptr (impl v) || is_nullptr key || is_null_out out then
    ret (FJ_ERROR_UNINITIALIZED, out)
  else
    e <- get_element v ;;
    let obj_result := get_object e in
    if is_error (result_error obj_result) then
      ret (map_error (result_error obj_result), out)
    else
      k <- bytes_at key ;;
      let field_result := object_at_key (result_value obj_result) (c_str k) in
      if is_error (result_error field_result) then
        ret (map_error (result_error field_result), out)
      else
        q <- store_element in_get_field (result_value field_result) ;;
        ret (FJ_SUCCESS, assign out {| impl := Some q; doc := doc v |}).

Definition fj_value_get_field_len (v : fj_value) (key : option string)
    (key_len : N) (out : out_param fj_value)
  : M (fj_error * out_param fj_value) :=
  if is_nullptr (impl v) || is_nullptr key || is_null_out out then
    ret (FJ_ERROR_UNINITIALIZED, out)
  else
    e <- get_element v ;;
    let obj_result := get_object e in
    if is_error (result_error obj_result) then
      ret (map_error (result_error obj_result), out)
    else
      k <- bytes_at key ;;
      let field_result :=
        object_at_key (result_value obj_result) (string_view k key_len) in
      if is_error (result_error field_result) then
        ret (map_error (result_error field_result), out)
      else
        q <- store_element in_get_field_len (result_value field_result) ;;
        ret (FJ_SUCCESS, assign out {| impl := Some q; doc := doc v |}).

Definition fj_value_has_field (v : fj_value) (key : option string) : M bool :=
  if is_nullptr (impl v) || is_nullptr key then ret false
  else
    e <- get_element v ;;
    let obj_result := get_object e in
    if is_error (result_error obj_result) then ret false
    else
      k <- bytes_at key ;;
      let field_result := object_at_key (result_value obj_result) (c_str k) in
      ret (negb (is_error (result_error field_result))).

Definition fj_value_object_size (v : fj_value) (out : out_param N)
  : M (fj_error * out_param N) :=
  if is_nullptr (impl v) || is_null_out out then
    ret (FJ_ERROR_UNINITIALIZED, out)
  else
    e <- get_element v ;;
    let result := get_object e in
    if is_error (result_error result) then
      ret (map_error (result_error result), out)
    else
      ret (FJ_SUCCESS, assign out (N.of_nat (length (result_value result)))).

(** ** Array access functions *)

Definition fj_value_get_index (v : fj_value) (idx : N)
    (out : out_param fj_value) : M (fj_error * out_param fj_value) :=
  if is_nullptr (impl v) || is_null_out out then
    ret (FJ_ERROR_UNINITIALIZED, out)
  else
    e <- get_element v ;;
    let arr_result := get_array e in
    if is_error (result_error arr_result) then
      ret (map_error (result_error arr_result), out)
    else
      let elem_result := array_at (result_value arr_result) idx in
      if is_error (result_error elem_result) then
        ret (map_error (result_error elem_result), out)
      else
        q <- store_element in_get_index (result_value elem_result) ;;
        ret (FJ_SUCCESS, assign out {| impl := Some q; doc := doc v |}).

Definition fj_value_array_size (v : fj_value) (out : out_param N)
  : M (fj_error * out_param N) :=
  if is_nullptr (impl v) || is_null_out out then
    ret (FJ_ERROR_UNINITIALIZED, out)
  else
    e <- get_element v ;;
    let result := get_array e in
    if is_error (result_error result) then
      ret (map_error (result_error result), out)
    else
      ret (FJ_SUCCESS, assign out (N.of_nat (length (result_value result)))).

(** ** Iteration functions *)

(** [fj_array_iter_s(dom::array arr)]: [current = array.begin()],
    [end = array.end()]. *)
Definition fj_array_iter_s_ctor (arr : list element) : fj_array_iter_s :=
  {| array := arr; a_current := 0; a_end := length arr |}.

Definition fj_object_iter_s_ctor (obj : list (string * element))
  : fj_object_iter_s :=
  {| object := obj; o_current := 0; o_end := length obj |}.

(** Modelled from the spec: the engine's container iterators, which live in
    simdjson and not under this repository's sources.  An iterator starts at
    the first child, [++] moves it to the next one and [end()] is the
    position after the last; [*it] at position [i] of the children [l] is
    the [i]-th child and is not defined at [end()]. *)
Definition iter_deref {T : Type} (l : list T) (i : nat) : M T :=
  fun w => match l !! i with Some x => Returns x w | None => Undefined end.

Definition fj_array_iter_new (v : fj_value) (iter : out_param fj_array_iter)
  : M (fj_error * out_param fj_array_iter) :=
  if is_nullptr (impl v) || is_null_out iter then
    ret (FJ_ERROR_UNINITIALIZED, iter)
  else
    e <- get_element v ;;
    let result := get_array e in
    if is_error (result_error result) then
      ret (map_error (result_error result), iter)
    else
      try_catch
        (a <- new_object array_iters set_array_iters
                (fj_array_iter_s_ctor (result_value result)) ;;
         ret (FJ_SUCCESS, assign iter (Some a)))
        (ret (FJ_ERROR_MEMALLOC, iter)).

Definition fj_array_iter_next (iter : fj_array_iter)
    (out : out_param fj_value) : M (bool * out_param fj_value) :=
  if is_nullptr iter || is_null_out out then ret (false, out)
  else
    it <- load array_iters iter ;;
    if Nat.eqb (a_current it) (a_end it) then ret (false, out)
    else
      cur <- iter_deref (array it) (a_current it) ;;
      q <- store_element in_array_iter_next cur ;;
      _ <- store array_iters set_array_iters iter
             {| array := array it; a_current := S (a_current it);
                a_end := a_end it |} ;;
      ret (true, assign out {| impl := Some q; doc := nullptr |}).

Definition fj_array_iter_free (iter : fj_array_iter) : M unit :=
  delete_object array_iters set_array_iters iter.

Definition fj_object_iter_new (v : fj_value) (iter : out_param fj_object_iter)
  : M (fj_error * out_param fj_object_iter) :=
  if is_nullptr (impl v) || is_null_out iter then
    ret (FJ_ERROR_UNINITIALIZED, iter)
  else
    e <- get_element v ;;
    let result := get_object e in
    if is_error (result_error result) then
      ret (map_error (result_error result), iter)
    else
      try_catch
        (a <- new_object object_iters set_object_iters
                (fj_object_iter_s_ctor (result_value result)) ;;
         ret (FJ_SUCCESS, assign iter (Some a)))
        (ret (FJ_ERROR_MEMALLOC, iter)).

(** The outputs of [fj_object_iter_next]: the flag, then [*key], [*key_len]
    and [*val]. *)
Record object_next_result : Type := {
  next_more : bool;
  next_key : out_param string;
  next_key_len : out_param N;
  next_val : out_param fj_value
}.

Definition fj_object_iter_next (iter : fj_object_iter)
    (key : out_param string) (key_len : out_param N)
    (val : out_param fj_value) : M object_next_result :=
  if is_nullptr iter || is_null_out key || is_null_out key_len
     || is_null_out val then
    ret {| next_more := false; next_key := key; next_key_len := key_len;
           next_val := val |}
  else
    it <- load object_iters iter ;;
    if Nat.eqb (o_current it) (o_end it) then
      ret {| next_more := false; next_key := key; next_key_len := key_len;
             next_val := val |}
    else
      field <- iter_deref (object it) (o_current it) ;;
      let k := fst field in
      q <- store_element in_object_iter_next (snd field) ;;
      _ <- store object_iters set_object_iters iter
             {| object := object it; o_current := S (o_current it);
                o_end := o_end it |} ;;
      ret {| next_more := true;
             next_key := assign key k;
             next_key_len := assign key_len (N.of_nat (String.length k));
             next_val := assign val {| impl := Some q; doc := nullptr |} |}.

Definition fj_object_iter_free (iter : fj_object_iter) : M unit :=
  delete_object object_iters set_object_iters iter.

(** ** Utility functions *)

Definition fj_required_padding : N := SIMDJSON_PADDING.

Definition fj_active_implementation : M string :=
  fun w =>
    match cached_impl_name w with
    | None =>
        Returns active_implementation_name
          (set_cached_impl_name (Some active_implementation_name) w)
    | Some name => Returns name w
    end.

(** The result carries the buffer [json] points to after the call. *)
Definition fj_minify (json : option string) (len : N) (out_len : out_param N)
  : fj_error * option string * out_param N :=
  match json, out_len with
  | Some buf, out_cell old =>
      let '(err, buf', n) := simdjson_minify buf len old in
      (map_error err, Some buf', out_cell n)
  | _, _ => (FJ_ERROR_UNINITIALIZED, json, out_len)
  end.

Definition fj_validate (json : option string) (len : N) : fj_error :=
  match json with
  | None => FJ_ERROR_UNINITIALIZED
  | Some buf =>
      let result :=
        parser_parse {| max_capacity := SIMDJSON_MAXSIZE_BYTES |} buf len in
      map_error (result_error result)
  end.

(** ** The interface as a whole

    One constructor per exported function, with its arguments; [exec] runs a
    call and wraps what it returns. *)
Inductive api_call : Type :=
  | Parser_new (capacity : N)
  | Parser_free (p : fj_parser)
  | Parser_parse (p : fj_parser) (json : option string) (len : N)
      (d : out_param fj_document)
  | Parser_parse_padded (p : fj_parser) (json : option string) (len : N)
      (d : out_param fj_document)
  | Document_free (d : fj_document)
  | Document_root (d : fj_document)
  | Document_error (d : fj_document)
  | Error_message (err : Z)
  | Value_type (v : fj_value)
  | Value_is_null (v : fj_value)
  | Value_is_bool (v : fj_value)
  | Value_is_int64 (v : fj_value)
  | Value_is_uint64 (v : fj_value)
  | Value_is_double (v : fj_value)
  | Value_is_number (v : fj_value)
  | Value_is_string (v : fj_value)
  | Value_is_array (v : fj_value)
  | Value_is_object (v : fj_value)
  | Value_get_bool (v : fj_value) (out : out_param bool)
  | Value_get_int64 (v : fj_value) (out : out_param Z)
  | Value_get_uint64 (v : fj_value) (out : out_param Z)
  | Value_get_double (v : fj_value) (out : out_param Z)
  | Value_get_string (v : fj_value) (out : out_param string)
      (len : out_param N)
  | Value_get_field (v : fj_value) (key : option string)
      (out : out_param fj_value)
  | Value_get_field_len (v : fj_value) (key : option string) (key_len : N)
      (out : out_param fj_value)
  | Value_has_field (v : fj_value) (key : option string)
  | Value_object_size (v : fj_value) (out : out_param N)
  | Value_get_index (v : fj_value) (idx : N) (out : out_param fj_value)
  | Value_array_size (v : fj_value) (out : out_param N)
  | Array_iter_new (v : fj_value) (iter : out_param fj_array_iter)
  | Array_iter_next (iter : fj_array_iter) (out : out_param fj_value)
  | Array_iter_free (iter : fj_array_iter)
  | Object_iter_new (v : fj_value) (iter : out_param fj_object_iter)
  | Object_iter_next (iter : fj_object_iter) (key : out_param string)
      (key_len : out_param N) (val : out_param fj_value)
  | Object_iter_free (iter : fj_object_iter)
  | Required_padding
  | Active_implementation
  | Minify (json : option string) (len : N) (out_len : out_param N)
  | Validate (json : option string) (len : N).

Inductive api_result : Type :=
  | R_void
  | R_handle (h : option positive)
  | R_value (v : fj_value)
  | R_error (e : fj_error)
  | R_type (t : fj_type)
  | R_bool (b : bool)
  | R_size (n : N)
  | R_string (s : option string)
  | R_error_handle (e : fj_error) (out : out_param (option positive))
  | R_error_bool (e : fj_error) (out : out_param bool)
  | R_error_number (e : fj_error) (out : out_param Z)
  | R_error_string (e : fj_error) (out : out_param string) (len : out_param N)
  | R_error_value (e : fj_error) (out : out_param fj_value)
  | R_error_size (e : fj_error) (out : out_param N)
  | R_next_value (more : bool) (out : out_param fj_value)
  | R_next_field (r : object_next_result)
  | R_minify (e : fj_error) (json : option string) (out_len : out_param N).

Definition fmap_M {A B : Type} (f : A -> B) (m : M A) : M B :=
  a <- m ;; ret (f a).

Definition exec (c : api_call) : M api_result :=
  match c with
  | Parser_new n => fmap_M R_handle (fj_parser_new n)
  | Parser_free p => fmap_M (fun _ => R_void) (fj_parser_free p)
  | Parser_parse p json len d =>
      fmap_M (fun r => R_error_handle r.1 r.2) (fj_parser_parse p json len d)
  | Parser_parse_padded p json len d =>
      fmap_M (fun r => R_error_handle r.1 r.2)
        (fj_parser_parse_padded p json len d)
  | Document_free d => fmap_M (fun _ => R_void) (fj_document_free d)
  | Document_root d => ret (R_value (fj_document_root d))
  | Document_error d => fmap_M R_error (fj_document_error d)
  | Error_message err => ret (R_string (fj_error_message err))
  | Value_type v => fmap_M R_type (fj_value_type v)
  | Value_is_null v => fmap_M R_bool (fj_value_is_null v)
  | Value_is_bool v => fmap_M R_bool (fj_value_is_bool v)
  | Value_is_int64 v => fmap_M R_bool (fj_value_is_int64 v)
  | Value_is_uint64 v => fmap_M R_bool (fj_value_is_uint64 v)
  | Value_is_double v => fmap_M R_bool (fj_value_is_double v)
  | Value_is_number v => fmap_M R_bool (fj_value_is_number v)
  | Value_is_string v => fmap_M R_bool (fj_value_is_string v)
  | Value_is_array v => fmap_M R_bool (fj_value_is_array v)
  | Value_is_object v => fmap_M R_bool (fj_value_is_object v)
  | Value_get_bool v out =>
      fmap_M (fun r => R_error_bool r.1 r.2) (fj_value_get_bool v out)
  | Value_get_int64 v out =>
      fmap_M (fun r => R_error_number r.1 r.2) (fj_value_get_int64 v out)
  | Value_get_uint64 v out =>
      fmap_M (fun r => R_error_number r.1 r.2) (fj_value_get_uint64 v out)
  | Value_get_double v out =>
      fmap_M (fun r => R_error_number r.1 r.2) (fj_value_get_double v out)
  | Value_get_string v out len =>
      fmap_M (fun r => R_error_string r.1.1 r.1.2 r.2)
        (fj_value_get_string v out len)
  | Value_get_field v key out =>
      fmap_M (fun r => R_error_value r.1 r.2) (fj_value_get_field v key out)
  | Value_get_field_len v key key_len out =>
      fmap_M (fun r => R_error_value r.1 r.2)
        (fj_value_get_field_len v key key_len out)
  | Value_has_field v key => fmap_M R_bool (fj_value_has_field v key)
  | Value_object_size v out =>
      fmap_M (fun r => R_error_size r.1 r.2) (fj_value_object_size v out)
  | Value_get_index v idx out =>
      fmap_M (fun r => R_error_value r.1 r.2) (fj_value_get_index v idx out)
  | Value_array_size v out =>
      fmap_M (fun r => R_error_size r.1 r.2) (fj_value_array_size v out)
  | Array_iter_new v iter =>
      fmap_M (fun r => R_error_handle r.1 r.2) (fj_array_iter_new v iter)
  | Array_iter_next iter out =>
      fmap_M (fun r => R_next_value r.1 r.2) (fj_array_iter_next iter out)
  | Array_iter_free iter => fmap_M (fun _ => R_void) (fj_array_iter_free iter)
  | Object_iter_new v iter =>
      fmap_M (fun r => R_error_handle r.1 r.2) (fj_object_iter_new v iter)
  | Object_iter_next iter key key_len val =>
      fmap_M R_next_field (fj_object_iter_next iter key key_len val)
  | Object_iter_free iter =>
      fmap_M (fun _ => R_void) (fj_object_iter_free iter)
  | Required_padding => ret (R_size fj_required_padding)
  | Active_implementation =>
      fmap_M (fun s => R_string (Some s)) fj_active_implementation
  | Minify json len out_len =>
      ret (let '(e, j, o) := fj_minify json len out_len in R_minify e j o)
  | Validate json len => ret (R_error (fj_validate json len))
  end.

(** The states a single-threaded client can bring about: any sequence of
    calls that return, from the state at program start. *)
Inductive reachable : world -> Prop :=
  | reachable_initial script : reachable (initial_world script)
  | reachable_step w c r w' :
      reachable w -> exec c w = Returns r w' -> reachable w'.

(** ** Derivations and runs *)

(** The reference a call handed back, when it is one of the five deriving
    functions and it succeeded: the [impl] it wrote to its out-parameter. *)
Definition derived_ref (c : api_call) (r : api_result) : option element_ptr :=
  match c, r with
  | Value_get_field _ _ _, R_error_value FJ_SUCCESS (out_cell v)
  | Value_get_field_len _ _ _ _, R_error_value FJ_SUCCESS (out_cell v)
  | Value_get_index _ _ _, R_error_value FJ_SUCCESS (out_cell v)
  | Array_iter_next _ _, R_next_value true (out_cell v) => impl v
  | Object_iter_next _ _ _ _, R_next_field f =>
      if next_more f then
        match next_val f with out_cell v => impl v | null_out => None end
      else None
  | _, _ => None
  end.

(** The pool a function keeps, for the five functions that keep one. *)
Definition call_pool (c : api_call) : option pool_id :=
  match c with
  | Value_get_field _ _ _ => Some in_get_field
  | Value_get_field_len _ _ _ _ => Some in_get_field_len
  | Value_get_index _ _ _ => Some in_get_index
  | Array_iter_next _ _ => Some in_array_iter_next
  | Object_iter_next _ _ _ _ => Some in_object_iter_next
  | _ => None
  end.

(** Running calls one after the other, collecting what they return. *)
Fixpoint run (cs : list api_call) : M (list api_result) :=
  match cs with
  | [] => ret []
  | c :: cs' => r <- exec c ;; rs <- run cs' ;; ret (r :: rs)
  end.

(** How many calls of a run handed back a cell of pool [p]. *)
Fixpoint derivations_into (p : pool_id) (cs : list api_call)
    (rs : list api_result) : nat :=
  match cs, rs with
  | c :: cs', r :: rs' =>
      match derived_ref c r with
      | Some (slot_of p' _) =>
          if pool_id_eqb p p' then S (derivations_into p cs' rs')
          else derivations_into p cs' rs'
      | _ => derivations_into p cs' rs'
      end
  | _, _ => 0%nat
  end.

(** [n] calls of [fj_array_iter_next] on one iterator, each with a fresh
    out-parameter: for every call the flag and, when it is set, the element
    the returned value points to right after that call. *)
Fixpoint array_iter_drain (n : nat) (iter : fj_array_iter)
  : M (list (bool * option element)) :=
  match n with
  | O => ret []
  | S n' =>
      r <- fj_array_iter_next iter
             (out_cell {| impl := nullptr; doc := nullptr |}) ;;
      item <- (fun w =>
                 Returns
                   (match r with
                    | (true, out_cell v) =>
                        match impl v with
                        | Some q => load_element q w
                        | None => None
                        end
                    | _ => None
                    end) w) ;;
      rest <- array_iter_drain n' iter ;;
      ret ((r.1, item) :: rest)
  end.

(** What a step of an object iteration reports for the field [f]. *)
Definition field_item (f : string * element)
  : bool * option (string * N * element) :=
  (true, Some (f.1, N.of_nat (String.length f.1), f.2)).

(** The same for [fj_object_iter_next]; an item is the key view with its
    length and the element behind the value. *)
Fixpoint object_iter_drain (n : nat) (iter : fj_object_iter)
  : M (list (bool * option (string * N * element))) :=
  match n with
  | O => ret []
  | S n' =>
      r <- fj_object_iter_next iter (out_cell EmptyString) (out_cell 0%N)
             (out_cell {| impl := nullptr; doc := nullptr |}) ;;
      item <- (fun w =>
                 Returns
                   (match next_more r, next_key r, next_key_len r,
                          next_val r with
                    | true, out_cell k, out_cell n, out_cell v =>
                        match impl v with
                        | Some q => pair (k, n) <$> load_element q w
                        | None => None
                        end
                    | _, _, _, _ => None
                    end) w) ;;
      rest <- object_iter_drain n' iter ;;
      ret ((next_more r, item) :: rest)
  end.

End Api.

Arguments null_out {T}.
Arguments out_cell {T} _.
Arguments Returns {_ A} _ _.
Arguments Throws {_ A} _.
Arguments Undefined {_ A}.

(** ** A sample engine

    A small instance of the interface, for running the functions on concrete
    inputs: documents are trees, and the parser knows the texts of
    [sample_documents] and rejects every other one. *)
Local Unset Elimination Schemes.
Inductive json : Type :=
  | J_null
  | J_bool (b : bool)
  | J_int64 (z : Z)
  | J_uint64 (z : Z)
  | J_double (bits : Z)
  | J_string (s : string)
  | J_array (children : list json)
  | J_object (fields : list (string * json)).
Local Set Elimination Schemes.

Definition json_type (j : json) : element_type :=
  match j with
  | J_null => NULL_VALUE
  | J_bool _ => BOOL
  | J_int64 _ => INT64
  | J_uint64 _ => UINT64
  | J_double _ => DOUBLE
  | J_string _ => STRING
  | J_array _ => ARRAY
  | J_object _ => OBJECT
  end.

(** The one-character string holding a double quote (code 34). *)
Definition quote : string :=
  String (Ascii.Ascii false true false false false true false false)
    EmptyString.

(** The text [{"a":1,"b":[true,null,"x"]}]. *)
Definition sample_text : string :=
  ("{" ++ quote ++ "a" ++ quote ++ ":1," ++ quote ++ "b" ++ quote
   ++ ":[true,null," ++ quote ++ "x" ++ quote ++ "]}")%string.

Definition sample_tree : json :=
  J_object [ ("a"%string, J_int64 1);
             ("b"%string, J_array [J_bool true; J_null; J_string "x"]) ].

Definition sample_documents : list (string * json) :=
  [ (sample_text, sample_tree);
    ("[10,20,30]"%string, J_array [J_int64 10; J_int64 20; J_int64 30]);
    ("null"%string, J_null) ].

Fixpoint lookup_text (t : string) (docs : list (string * json))
  : option json :=
  match docs with
  | [] => None
  | (t', j) :: docs' => if String.eqb t' t then Some j else lookup_text t docs'
  end.

Definition sample_parse (p : dom_parser) (buf : string) (len : N)
  : simdjson_result json :=
  if (max_capacity p <? len)%N then mk_result J_null CAPACITY
  else if (len =? 0)%N then mk_result J_null EMPTY
  else
    match lookup_text (String.substring 0 (N.to_nat len) buf)
            sample_documents with
    | Some j => mk_result j SUCCESS
    | None => mk_result J_null TAPE_ERROR
    end.

Definition sample_engine : Engine := {|
  element := json;
  default_element := J_null;
  el_type := json_type;
  is_null := fun j => match j with J_null => true | _ => false end;
  is_bool := fun j => match j with J_bool _ => true | _ => false end;
  is_int64 := fun j => match j with J_int64 _ => true | _ => false end;
  is_uint64 := fun j => match j with J_uint64 _ => true | _ => false end;
  is_double := fun j => match j with J_double _ => true | _ => false end;
  is_string := fun j => match j with J_string _ => true | _ => false end;
  is_array := fun j => match j with J_array _ => true | _ => false end;
  is_object := fun j => match j with J_object _ => true | _ => false end;
  get_bool := fun j =>
    match j with
    | J_bool b => mk_result b SUCCESS
    | _ => mk_result false INCORRECT_TYPE
    end;
  get_int64 := fun j =>
    match j with
    | J_int64 z => mk_result z SUCCESS
    | J_uint64 z =>
        if z <? 2 ^ 63 then mk_result z SUCCESS
        else mk_result 0 NUMBER_OUT_OF_RANGE
    | _ => mk_result 0 INCORRECT_TYPE
    end;
  get_uint64 := fun j =>
    match j with
    | J_uint64 z => mk_result z SUCCESS
    | J_int64 z =>
        if z <? 0 then mk_result 0 NUMBER_OUT_OF_RANGE
        else mk_result z SUCCESS
    | _ => mk_result 0 INCORRECT_TYPE
    end;
  get_double := fun j =>
    match j with
    | J_double bits => mk_result bits SUCCESS
    | _ => mk_result 0 INCORRECT_TYPE
    end;
  get_string := fun j =>
    match j with
    | J_string s => mk_result s SUCCESS
    | _ => mk_result EmptyString INCORRECT_TYPE
    end;
  get_array := fun j =>
    match j with
    | J_array l => mk_result l SUCCESS
    | _ => mk_result [] INCORRECT_TYPE
    end;
  get_object := fun j =>
    match j with
    | J_object l => mk_result l SUCCESS
    | _ => mk_result [] INCORRECT_TYPE
    end;
  parser_parse := sample_parse;
  simdjson_minify := fun buf len _ => (SUCCESS, buf, len);
  SIMDJSON_PADDING := 64;
  SIMDJSON_MAXSIZE_BYTES := 4294967295;
  active_implementation_name := "fallback"
|}.

(** What a computation returned, if it did. *)
Definition returned {E : Engine} {A : Type} (o : outcome A) : option A :=
  match o with Returns a _ => Some a | _ => None end.

(** The state a run of calls leaves behind (the starting state, should the
    run not return). *)
Definition world_after {E : Engine} (cs : list api_call) (w : world) : world :=
  match run cs w with Returns _ w' => w' | _ => w end.

(** The references the calls of a run handed back. *)
Definition derived_refs (cs : list api_call) (rs : list api_result)
  : list (option element_ptr) :=
  zip_with derived_ref cs rs.

(** ** Sample sessions

    Runs of the interface on the sample engine, from program start.  The
    first object of each kind gets the address 1. *)
Definition null_value : fj_value := {| impl := nullptr; doc := nullptr |}.

Definition text_len (s : string) : N := N.of_nat (String.length s).

Definition parse_text (text : string) : list api_call :=
  [ Parser_new 0;
    Parser_parse (Some 1%positive) (Some text) (text_len text)
      (out_cell nullptr) ].

(** After [fj_parser_new(0)]. *)
Definition parser_world : world (H := sample_engine) :=
  world_after [Parser_new 0] (initial_world []).

(** After parsing [sample_text]: document 1 is the sample object. *)
Definition sample_world : world (H := sample_engine) :=
  world_after (parse_text sample_text) (initial_world []).

(** After parsing [[10,20,30]]: document 1 is an array of three. *)
Definition array_world : world (H := sample_engine) :=
  world_after (parse_text "[10,20,30]") (initial_world []).

(** After parsing [null]. *)
Definition null_world : world (H := sample_engine) :=
  world_after (parse_text "null") (initial_world []).

Definition first_root : fj_value := fj_document_root (Some 1%positive).

(** Array iterator 1 over the root of [array_world], just made. *)
Definition array_iter_world : world (H := sample_engine) :=
  world_after [Array_iter_new first_root (out_cell nullptr)] array_world.

(** Object iterator 1 over the root of [sample_world], just made. *)
Definition object_iter_world : world (H := sample_engine) :=
  world_after [Object_iter_new first_root (out_cell nullptr)] sample_world.

(** The value [fj_value_get_field(root, "b", &out)] hands back first. *)
Definition field_b : fj_value :=
  {| impl := Some (slot_of in_get_field 1); doc := Some 1%positive |}.

Definition get_field_b : api_call :=
  Value_get_field first_root (Some "b"%string) (out_cell null_value).

(** Two field lookups, then an index lookup into the array found. *)
Definition three_derivations : list api_call :=
  [ Value_get_field first_root (Some "a"%string) (out_cell null_value);
    Value_get_field first_root (Some "b"%string) (out_cell null_value);
    Value_get_index
      {| impl := Some (slot_of in_get_field 2); doc := Some 1%positive |} 0
      (out_cell null_value) ].

(** The sample engine, except that it reports a type [map_type] does not
    list for JSON null. *)
Definition alien_engine : Engine := {|
  element := json;
  default_element := J_null;
  el_type := fun j =>
    match j with J_null => UNLISTED_TYPE 63 | _ => json_type j end;
  is_null := @is_null sample_engine;
  is_bool := @is_bool sample_engine;
  is_int64 := @is_int64 sample_engine;
  is_uint64 := @is_uint64 sample_engine;
  is_double := @is_double sample_engine;
  is_string := @is_string sample_engine;
  is_array := @is_array sample_engine;
  is_object := @is_object sample_engine;
  get_bool := @get_bool sample_engine;
  get_int64 := @get_int64 sample_engine;
  get_uint64 := @get_uint64 sample_engine;
  get_double := @get_double sample_engine;
  get_string := @get_string sample_engine;
  get_array := @get_array sample_engine;
  get_object := @get_object sample_engine;
  parser_parse := sample_parse;
  simdjson_minify := @simdjson_minify sample_engine;
  SIMDJSON_PADDING := @SIMDJSON_PADDING sample_engine;
  SIMDJSON_MAXSIZE_BYTES := @SIMDJSON_MAXSIZE_BYTES sample_engine;
  active_implementation_name := @active_implementation_name sample_engine
|}.

Definition alien_null_world : world (H := alien_engine) :=
  world_after (parse_text "null") (initial_world []).

(** ** Reading through values *)

(** The element a value refers to, if its [impl] is non-null and points to
    something that exists. *)
Definition pointee {E : Engine} (v : fj_value) (w : world) : option element :=
  match impl v with
  | Some q => load_element q w
  | None => None
  end.

(** The element behind the value in an out-parameter. *)
Definition pointee_of {E : Engine} (o : out_param fj_value) (w : world)
  : option element :=
  match o with
  | out_cell v => pointee v w
  | null_out => None
  end.

(** The calls that only read: no [new], no [delete], no pool, no cache. *)
Definition read_only (c : api_call) : bool :=
  match c with
  | Document_root _ | Document_error _ | Error_message _ | Value_type _
  | Value_is_null _ | Value_is_bool _ | Value_is_int64 _ | Value_is_uint64 _
  | Value_is_double _ | Value_is_number _ | Value_is_string _
  | Value_is_array _ | Value_is_object _
  | Value_get_bool _ _ | Value_get_int64 _ _ | Value_get_uint64 _ _
  | Value_get_double _ _ | Value_get_string _ _ _
  | Value_has_field _ _ | Value_object_size _ _ | Value_array_size _ _
  | Required_padding | Minify _ _ _ | Validate _ _ => true
  | _ => false
  end.

(** What the calls of a run returned (nothing, should the run not
    return). *)
Definition results_after {E : Engine} (cs : list api_call) (w : world)
  : list api_result :=
  match run cs w with Returns rs _ => rs | _ => [] end.

(** ** More sample sessions *)

Definition get_field_a : api_call :=
  Value_get_field first_root (Some "a"%string) (out_cell null_value).

(** The value [fj_value_get_field(root, "a", &out)] hands back first. *)
Definition field_a : fj_value :=
  {| impl := Some (slot_of in_get_field 1); doc := Some 1%positive |}.

(** After looking up ["a"] in the root of [sample_world]. *)
Definition field_a_world : world (H := sample_engine) :=
  world_after [get_field_a] sample_world.

(** 255 further lookups of ["b"]. *)
Definition wrap_calls : list api_call := replicate 255 get_field_b.

(** * Properties *)

(** ** The error taxonomy *)

Lemma map_error_success (e : error_code) :
  map_error e = FJ_SUCCESS <-> e = SUCCESS.
Proof. split; [destruct e; simpl; congruence | intros ->; reflexivity]. Qed.

Lemma is_error_map_error (e : error_code) :
  is_error e = true <-> map_error e <> FJ_SUCCESS.
Proof. destruct e; simpl; split; congruence. Qed.

Lemma is_error_false (e : error_code) : is_error e = false <-> e = SUCCESS.
Proof. destruct e; simpl; split; congruence. Qed.

Lemma fj_error_kinds_complete (k : fj_error) : k ∈ fj_error_kinds.
Proof. unfold fj_error_kinds; destruct k; set_solver. Qed.

Lemma to_int_small (z : Z) : 0 <= z < 2 ^ 31 -> to_int z = z.
Proof.
  intros Hz. unfold to_int. rewrite Z.mod_small by lia. lia.
Qed.

Lemma fj_error_message_outside (z : Z) :
  0 <= to_int z ->
  (forall k, k <> FJ_ERROR_UNKNOWN -> fj_error_value k <> to_int z) ->
  fj_error_message z = Some "Unknown error"%string.
Proof.
  intros Hz Hout. unfold fj_error_message. cbv zeta.
  set (e := to_int z) in *. simpl fj_error_value.
  destruct (e =? 255) eqn:E255; [reflexivity|].
  destruct (e >? 30) eqn:E30; [reflexivity|]. exfalso.
  apply Z.eqb_neq in E255.
  assert (Hle : e <= 30) by (rewrite Z.gtb_ltb in E30; lia).
  assert (Hin : exists k, k <> FJ_ERROR_UNKNOWN /\ fj_error_value k = e).
  { assert (Hn : e = Z.of_nat (Z.to_nat e)) by lia.
    assert (Hb : (Z.to_nat e < 31)%nat) by lia.
    destruct (fj_error_kinds !! Z.to_nat e) as [k|] eqn:Ek.
    - exists k. revert Ek Hn. generalize (Z.to_nat e) as n. intros n.
      do 31 (destruct n as [|n];
             [intros [= <-] ->; split; [discriminate | reflexivity]|]).
      intros _ ->. lia.
    - apply lookup_ge_None in Ek. simpl in Ek. lia. }
  destruct Hin as (k & Hk & Hv). exact (Hout k Hk Hv).
Qed.

(** What holds of the error taxonomy.  Every engine code has its public
    kind: a code listed in [map_error] never becomes [FJ_ERROR_UNKNOWN],
    every other code does.  Each of the 31 listed kinds gets its entry of the
    table, [FJ_ERROR_UNKNOWN] gets "Unknown error", and so does every
    argument that, as an [int], is not negative and is none of the listed
    kinds. *)
Theorem error_mapping_in_range :
  (forall e : error_code,
      map_error e ∈ fj_error_kinds
      /\ (map_error e = FJ_ERROR_UNKNOWN <-> exists n, e = UNLISTED_CODE n))
  /\ (forall k : fj_error,
        k <> FJ_ERROR_UNKNOWN ->
        fj_error_message (fj_error_value k)
        = messages !! Z.to_nat (fj_error_value k)
        /\ is_Some (messages !! Z.to_nat (fj_error_value k)))
  /\ fj_error_message (fj_error_value FJ_ERROR_UNKNOWN)
     = Some "Unknown error"%string
  /\ (forall z : Z,
        0 <= to_int z ->
        (forall k, k <> FJ_ERROR_UNKNOWN -> fj_error_value k <> to_int z) ->
        fj_error_message z = Some "Unknown error"%string).
Proof.
  split; [|split; [|split]].
  - intros e. split; [apply fj_error_kinds_complete|]. split.
    + destruct e; simpl; try discriminate. eauto.
    + intros [n ->]. reflexivity.
  - intros k Hk. split.
    + destruct k; try congruence; vm_compute; reflexivity.
    + destruct k; try congruence; vm_compute; eauto.
  - reflexivity.
  - apply fj_error_message_outside.
Qed.

Lemma error_mapping_in_range_witness :
  fj_error_message 77 = Some "Unknown error"%string
  /\ fj_error_message (fj_error_value FJ_ERROR_EMPTY)
     = messages !! Z.to_nat (fj_error_value FJ_ERROR_EMPTY).
Proof.
  split.
  - apply (proj2 (proj2 (proj2 error_mapping_in_range)) 77).
    + vm_compute. discriminate.
    + intros k Hk. destruct k; vm_compute; congruence.
  - apply (proj1 (proj2 error_mapping_in_range) FJ_ERROR_EMPTY). discriminate.
Defined.

(** C5 fails below the table.  The mapping of engine codes is total, but
    [fj_error_message] does not answer every argument: the guard tests
    [err == FJ_ERROR_UNKNOWN] and [err > FJ_ERROR_TRAILING_CONTENT] and has
    no lower bound, so an argument whose [int] value is negative, such as
    the 4-byte pattern of all ones (-1, or 4294967295 read unsigned), passes
    both tests and [messages[err]] is read before the start of the table.
    Such an argument is outside the enumeration and does not get
    "Unknown error". *)
Theorem error_message_below_table :
  fj_error_message (-1) = None
  /\ fj_error_message 4294967295 = None
  /\ fj_error_message (-2147483648) = None
  /\ (forall k : fj_error, fj_error_value k <> to_int (-1))
  /\ ~ (forall err : Z, exists s, fj_error_message err = Some s)
  /\ ~ (forall err : Z,
          (forall k, k <> FJ_ERROR_UNKNOWN -> fj_error_value k <> to_int err) ->
          fj_error_message err = Some "Unknown error"%string).
Proof.
  repeat match goal with |- _ /\ _ => split end.
  - vm_compute. reflexivity.
  - vm_compute. reflexivity.
  - vm_compute. reflexivity.
  - intros k. destruct k; vm_compute; discriminate.
  - intros Hall. destruct (Hall (-1)) as [s Hs]. vm_compute in Hs.
    discriminate.
  - intros Hall. specialize (Hall (-1)).
    assert (Hs : fj_error_message (-1) = Some "Unknown error"%string).
    { apply Hall. intros k _. destruct k; vm_compute; discriminate. }
    vm_compute in Hs. discriminate.
Qed.

Section ApiFacts.
Context `{Engine}.

(** ** Proof steps for the building blocks *)

Lemma bind_returns {A B : Type} (m : M A) (k : A -> M B) w b w' :
  bind m k w = Returns b w' <->
  exists a w1, m w = Returns a w1 /\ k a w1 = Returns b w'.
Proof.
  unfold bind. split.
  - destruct (m w) as [a w1| |]; try discriminate. eauto.
  - intros (a & w1 & -> & Hk). exact Hk.
Qed.

Lemma get_element_returns (v : fj_value) w e w' :
  get_element v w = Returns e w' <->
  exists q, impl v = Some q /\ load_element q w = Some e /\ w' = w.
Proof.
  unfold get_element. split.
  - destruct (impl v) as [q|]; try discriminate.
    destruct (load_element q w) eqn:E; try discriminate.
    intros [= -> ->]. eauto.
  - intros (q & -> & -> & ->). reflexivity.
Qed.

Lemma get_element_live (v : fj_value) q e w :
  impl v = Some q -> load_element q w = Some e ->
  get_element v w = Returns e w.
Proof. intros. apply get_element_returns. eauto. Qed.

(** Case analysis on whatever a computation in the hypothesis [H] branches
    on, one branch at a time. *)
Ltac branch H :=
  match type of H with
  | context [match ?x with _ => _ end] =>
      lazymatch x with
      | context [match _ with _ => _ end] => fail
      | _ => destruct x eqn:?
      end
  end.

Ltac settle H :=
  first
    [ discriminate H
    | match type of H with
      | Returns _ _ = Returns _ _ => injection H as; subst
      | Throws _ = Throws _ => injection H as; subst
      end ].

(** ** Values and their types *)

(** C10. [fj_value_type] has no failure result: for a null handle it returns
    the Null tag, for a handle to a live element it returns [map_type] of the
    element's type, which is the Null tag again for every element type
    [map_type] does not list; so a null handle and a JSON null answer the
    type query alike. *)
Theorem fj_value_type_null :
  (forall (v : fj_value) w,
      impl v = None -> fj_value_type v w = Returns FJ_TYPE_NULL w)
  /\ (forall (v : fj_value) q e w,
        impl v = Some q -> load_element q w = Some e ->
        fj_value_type v w = Returns (map_type (el_type e)) w)
  /\ (forall t : element_type,
        t ∉ [NULL_VALUE; BOOL; INT64; UINT64; DOUBLE; STRING; ARRAY; OBJECT] ->
        map_type t = FJ_TYPE_NULL)
  /\ (forall (v : fj_value) q e w c,
        impl v = Some q -> load_element q w = Some e ->
        el_type e = UNLISTED_TYPE c ->
        fj_value_type v w = Returns FJ_TYPE_NULL w)
  /\ (forall (v v0 : fj_value) q e w,
        impl v = Some q -> load_element q w = Some e ->
        el_type e = NULL_VALUE -> impl v0 = None ->
        fj_value_type v w = fj_value_type v0 w).
Proof.
  assert (Hlive : forall (v : fj_value) q e w,
             impl v = Some q -> load_element q w = Some e ->
             fj_value_type v w = Returns (map_type (el_type e)) w).
  { intros v q e w Hq He. unfold fj_value_type. rewrite Hq. simpl.
    unfold bind. rewrite (get_element_live v q e w Hq He). reflexivity. }
  assert (Hnull : forall (v : fj_value) w,
             impl v = None -> fj_value_type v w = Returns FJ_TYPE_NULL w).
  { intros v w Hv. unfold fj_value_type. rewrite Hv. reflexivity. }
  repeat split.
  - exact Hnull.
  - exact Hlive.
  - intros t Ht. destruct t; try reflexivity; exfalso; apply Ht; set_solver.
  - intros v q e w c Hq He Ht. rewrite (Hlive v q e w Hq He), Ht. reflexivity.
  - intros v v0 q e w Hq He Ht Hv0.
    rewrite (Hlive v q e w Hq He), Ht, (Hnull v0 w Hv0). reflexivity.
Qed.

(** ** Parsing *)

(** C8. [fj_parser_parse_padded] is [fj_parser_parse]: on the same arguments
    and in the same state both give the same error code, leave the same
    handle in [*doc] and leave the same state behind. *)
Theorem parse_padded_same (p : fj_parser) (json : option string) (len : N)
    (d : out_param fj_document) (w : world) :
  fj_parser_parse_padded p json len d w = fj_parser_parse p json len d w
  /\ exec (Parser_parse_padded p json len d) w
     = exec (Parser_parse p json len d) w.
Proof. split; reflexivity. Qed.

(** ** Exceptions stay inside *)

Ltac unfold_api H :=
  unfold fmap_M, fj_parser_new, fj_parser_free, fj_parser_parse_padded,
    fj_parser_parse, fj_document_free, fj_document_error, fj_value_type,
    fj_value_is_null, fj_value_is_bool, fj_value_is_int64,
    fj_value_is_uint64, fj_value_is_double, fj_value_is_number,
    fj_value_is_string, fj_value_is_array, fj_value_is_object, value_is,
    fj_value_get_bool, fj_value_get_int64, fj_value_get_uint64,
    fj_value_get_double, value_get, fj_value_get_string,
    fj_value_get_field, fj_value_get_field_len, fj_value_has_field,
    fj_value_object_size, fj_value_get_index, fj_value_array_size,
    fj_array_iter_new, fj_array_iter_next, fj_array_iter_free,
    fj_object_iter_new, fj_object_iter_next, fj_object_iter_free,
    fj_active_implementation, new_object, delete_object, operator_new,
    load, store, store_element, iter_deref, bytes_at, content_of,
    get_element, try_catch, bind, ret in H.

Lemma exec_never_throws (c : api_call) w w' : exec c w <> Throws w'.
Proof.
  intros Hc.
  destruct c; simpl in Hc; unfold_api Hc;
    repeat (first [settle Hc | branch Hc]).
Qed.

(** ** Null handles *)

(** Decides the guard at the head of a function once the null argument is
    known. *)
Ltac guard_fires :=
  simpl;
  repeat match goal with
         | |- context [is_nullptr ?x] => is_var x; destruct x; simpl
         | |- context [is_null_out ?x] => is_var x; destruct x; simpl
         end;
  reflexivity.

(** C7. Every function that returns an error status rejects a null handle or
    a null required pointer with [FJ_ERROR_UNINITIALIZED] at its first line:
    the state and the cells behind the out-parameters are as before and the
    engine is not consulted.  No call of the interface leaves by an
    exception. *)
Theorem null_handle_uninitialized (w : world) :
  (forall p json len d,
      p = None \/ json = None \/ d = null_out ->
      fj_parser_parse p json len d w = Returns (FJ_ERROR_UNINITIALIZED, d) w
      /\ fj_parser_parse_padded p json len d w
         = Returns (FJ_ERROR_UNINITIALIZED, d) w)
  /\ fj_document_error None w = Returns FJ_ERROR_UNINITIALIZED w
  /\ (forall (v : fj_value) out,
        impl v = None \/ out = null_out ->
        fj_value_get_bool v out w = Returns (FJ_ERROR_UNINITIALIZED, out) w)
  /\ (forall (v : fj_value) out,
        impl v = None \/ out = null_out ->
        fj_value_get_int64 v out w = Returns (FJ_ERROR_UNINITIALIZED, out) w)
  /\ (forall (v : fj_value) out,
        impl v = None \/ out = null_out ->
        fj_value_get_uint64 v out w = Returns (FJ_ERROR_UNINITIALIZED, out) w)
  /\ (forall (v : fj_value) out,
        impl v = None \/ out = null_out ->
        fj_value_get_double v out w = Returns (FJ_ERROR_UNINITIALIZED, out) w)
  /\ (forall (v : fj_value) out len,
        impl v = None \/ out = null_out \/ len = null_out ->
        fj_value_get_string v out len w
        = Returns (FJ_ERROR_UNINITIALIZED, out, len) w)
  /\ (forall (v : fj_value) key out,
        impl v = None \/ key = None \/ out = null_out ->
        fj_value_get_field v key out w
        = Returns (FJ_ERROR_UNINITIALIZED, out) w)
  /\ (forall (v : fj_value) key key_len out,
        impl v = None \/ key = None \/ out = null_out ->
        fj_value_get_field_len v key key_len out w
        = Returns (FJ_ERROR_UNINITIALIZED, out) w)
  /\ (forall (v : fj_value) out,
        impl v = None \/ out = null_out ->
        fj_value_object_size v out w
        = Returns (FJ_ERROR_UNINITIALIZED, out) w)
  /\ (forall (v : fj_value) idx out,
        impl v = None \/ out = null_out ->
        fj_value_get_index v idx out w
        = Returns (FJ_ERROR_UNINITIALIZED, out) w)
  /\ (forall (v : fj_value) out,
        impl v = None \/ out = null_out ->
        fj_value_array_size v out w
        = Returns (FJ_ERROR_UNINITIALIZED, out) w)
  /\ (forall (v : fj_value) iter,
        impl v = None \/ iter = null_out ->
        fj_array_iter_new v iter w
        = Returns (FJ_ERROR_UNINITIALIZED, iter) w)
  /\ (forall (v : fj_value) iter,
        impl v = None \/ iter = null_out ->
        fj_object_iter_new v iter w
        = Returns (FJ_ERROR_UNINITIALIZED, iter) w)
  /\ (forall json len out_len,
        json = None \/ out_len = null_out ->
        fj_minify json len out_len
        = (FJ_ERROR_UNINITIALIZED, json, out_len))
  /\ (forall len, fj_validate None len = FJ_ERROR_UNINITIALIZED)
  /\ (forall c w', exec c w <> Throws w').
Proof.
  repeat match goal with |- _ /\ _ => split end;
    try (intros; apply exec_never_throws);
    try reflexivity.
  - intros p json len d [-> | [-> | ->]];
      unfold fj_parser_parse_padded, fj_parser_parse; split; guard_fires.
  - intros [i d] out [Hv | ->]; simpl in *; subst;
      unfold fj_value_get_bool, value_get; guard_fires.
  - intros [i d] out [Hv | ->]; simpl in *; subst;
      unfold fj_value_get_int64, value_get; guard_fires.
  - intros [i d] out [Hv | ->]; simpl in *; subst;
      unfold fj_value_get_uint64, value_get; guard_fires.
  - intros [i d] out [Hv | ->]; simpl in *; subst;
      unfold fj_value_get_double, value_get; guard_fires.
  - intros [i d] out len [Hv | [-> | ->]]; simpl in *; subst;
      unfold fj_value_get_string; guard_fires.
  - intros [i d] key out [Hv | [-> | ->]]; simpl in *; subst;
      unfold fj_value_get_field; guard_fires.
  - intros [i d] key key_len out [Hv | [-> | ->]]; simpl in *; subst;
      unfold fj_value_get_field_len; guard_fires.
  - intros [i d] out [Hv | ->]; simpl in *; subst;
      unfold fj_value_object_size; guard_fires.
  - intros [i d] idx out [Hv | ->]; simpl in *; subst;
      unfold fj_value_get_index; guard_fires.
  - intros [i d] out [Hv | ->]; simpl in *; subst;
      unfold fj_value_array_size; guard_fires.
  - intros [i d] iter [Hv | ->]; simpl in *; subst;
      unfold fj_array_iter_new; guard_fires.
  - intros [i d] iter [Hv | ->]; simpl in *; subst;
      unfold fj_object_iter_new; guard_fires.
  - intros json len out_len [-> | ->]; unfold fj_minify;
      [reflexivity | destruct json; reflexivity].
Qed.

(** ** Field lookup *)

Lemma object_at_key_absent (o : list (string * element)) (key : string) :
  key ∉ o.*1 -> object_at_key o key = mk_result default_element NO_SUCH_FIELD.
Proof.
  induction o as [|[k e] o IH]; simpl; intros Hk; [reflexivity|].
  apply not_elem_of_cons in Hk as [Hne Hk].
  destruct (String.eqb k key) eqn:E.
  - apply String.eqb_eq in E. congruence.
  - apply IH, Hk.
Qed.

(** C6. [fj_value_has_field] answers true exactly when [fj_value_get_field],
    given a valid out-parameter, returns [FJ_SUCCESS]; for an object and a key
    none of its fields has, the lookup returns [FJ_ERROR_NO_SUCH_FIELD] and
    the probe returns false. *)
Theorem has_field_iff_get_field :
  (forall (v : fj_value) key out0 w,
      fj_value_has_field v key w = Returns true w
      <-> exists out w',
          fj_value_get_field v key (out_cell out0) w
          = Returns (FJ_SUCCESS, out) w')
  /\ (forall (v : fj_value) q e fields k out w,
        impl v = Some q -> load_element q w = Some e ->
        get_object e = mk_result fields SUCCESS ->
        c_str k ∉ fields.*1 ->
        fj_value_get_field v (Some k) (out_cell out) w
        = Returns (FJ_ERROR_NO_SUCH_FIELD, out_cell out) w
        /\ fj_value_has_field v (Some k) w = Returns false w).
Proof.
  split.
  - intros v key out0 w.
    unfold fj_value_has_field, fj_value_get_field.
    destruct (impl v) as [q|] eqn:Hq; simpl;
      [| split; [discriminate | intros (? & ? & [=])]].
    destruct key as [k|]; simpl;
      [| split; [discriminate | intros (? & ? & [=])]].
    unfold bind at 1 3.
    unfold get_element. rewrite Hq.
    destruct (load_element q w) as [e|];
      [| split; [discriminate | intros (? & ? & [=])]].
    destruct (is_error (result_error (get_object e))) eqn:Eo.
    { unfold ret. split; [discriminate|].
      intros (? & ? & [= Hs]). apply map_error_success in Hs.
      rewrite Hs in Eo. discriminate. }
    unfold bind, bytes_at, store_element, ret.
    destruct (is_error (result_error (object_at_key _ _))) eqn:Ef; simpl.
    + split; [discriminate|].
      intros (? & ? & [= Hs]). apply map_error_success in Hs.
      rewrite Hs in Ef. discriminate.
    + split; [eauto | reflexivity].
  - intros v q e fields k out w Hq He Ho Hk.
    unfold fj_value_has_field, fj_value_get_field.
    rewrite Hq. simpl. unfold bind.
    rewrite (get_element_live v q e w Hq He), Ho. simpl.
    rewrite (object_at_key_absent _ _ Hk). simpl. split; reflexivity.
Qed.

(** ** Parsing is all or nothing *)

Lemma fresh_document_free (w : world) :
  documents w !! fresh (dom (documents w)) = None.
Proof. apply not_elem_of_dom, is_fresh. Qed.

(** The three ways [fj_parser_parse] ends once its arguments are non-null
    and the parser is live: the engine reports an error, the allocation of
    the document fails, or a document is made. *)
Lemma fj_parser_parse_cases pa ps buf len (d0 : fj_document) (w : world) :
  parsers w !! pa = Some ps ->
  let result := parser_parse (parser ps) buf len in
  (is_error (result_error result) = true
   /\ fj_parser_parse (Some pa) (Some buf) len (out_cell d0) w
      = Returns (map_error (result_error result), out_cell None) w)
  \/ (result_error result = SUCCESS
      /\ exists s, alloc_script w = false :: s
      /\ fj_parser_parse (Some pa) (Some buf) len (out_cell d0) w
         = Returns (FJ_ERROR_UNEXPECTED_ERROR, out_cell None)
             (set_alloc_script s w))
  \/ (result_error result = SUCCESS
      /\ exists w',
        fj_parser_parse (Some pa) (Some buf) len (out_cell d0) w
        = Returns (FJ_SUCCESS, out_cell (Some (fresh (dom (documents w))))) w'
        /\ documents w'
           = <[fresh (dom (documents w)) :=
                 {| root := result_value result; error := FJ_SUCCESS |}]>
               (documents w)
        /\ parsers w' = parsers w /\ array_iters w' = array_iters w
        /\ object_iters w' = object_iters w /\ tls w' = tls w
        /\ cached_impl_name w' = cached_impl_name w).
Proof.
  intros Hps result.
  unfold fj_parser_parse. simpl.
  unfold try_catch, bind, load, bytes_at. rewrite Hps.
  fold result.
  destruct (is_error (result_error result)) eqn:Eerr; [left; split; done|].
  right. apply is_error_false in Eerr.
  unfold new_object, bind, operator_new, store, ret.
  destruct (alloc_script w) as [|[|] s] eqn:Es; simpl.
  - right. split; [done|].
    repeat first [rewrite lookup_insert_eq | rewrite insert_insert_eq
                 | progress simpl].
    eexists. split; [reflexivity|]. simpl. done.
  - right. split; [done|].
    repeat first [rewrite lookup_insert_eq | rewrite insert_insert_eq
                 | progress simpl].
    eexists. split; [reflexivity|]. simpl. done.
  - left. split; [done|]. exists s. done.
Qed.

(** C3, as the code has it.  With a non-null parser, input and out-pointer
    (the parser being live), [fj_parser_parse] either returns [FJ_SUCCESS],
    stores the handle of one new document holding the engine's tree and
    [FJ_SUCCESS] and changes no other document, or returns another code,
    stores a null handle and leaves the documents as they were.  With a null
    parser or input it returns [FJ_ERROR_UNINITIALIZED], makes no document
    and does not write [*doc]. *)
Theorem parse_atomic (p : fj_parser) (json : option string) (len : N)
    (d0 : fj_document) (w : world) :
  (p = None \/ json = None ->
   fj_parser_parse p json len (out_cell d0) w
   = Returns (FJ_ERROR_UNINITIALIZED, out_cell d0) w)
  /\ (forall pa ps buf,
        p = Some pa -> parsers w !! pa = Some ps -> json = Some buf ->
        let result := parser_parse (parser ps) buf len in
        (exists a w',
            fj_parser_parse p json len (out_cell d0) w
            = Returns (FJ_SUCCESS, out_cell (Some a)) w'
            /\ result_error result = SUCCESS
            /\ documents w !! a = None
            /\ documents w'
               = <[a := {| root := result_value result;
                           error := FJ_SUCCESS |}]> (documents w))
        \/ (exists e w',
               fj_parser_parse p json len (out_cell d0) w
               = Returns (e, out_cell None) w'
               /\ e <> FJ_SUCCESS
               /\ documents w' = documents w)).
Proof.
  split.
  - intros [-> | ->]; unfold fj_parser_parse; [|destruct p]; reflexivity.
  - intros pa ps buf -> Hps -> result.
    destruct (fj_parser_parse_cases pa ps buf len d0 w Hps)
      as [(Herr & Hrun) | [(Hok & s & Hs & Hrun) | (Hok & w' & Hrun & Hd & _)]].
    + right. eexists _, _. split; [exact Hrun|]. split; [|reflexivity].
      apply is_error_map_error, Herr.
    + right. eexists _, _. split; [exact Hrun|]. split; [discriminate|].
      reflexivity.
    + left. eexists _, w'. split; [exact Hrun|].
      split; [exact Hok|]. split; [apply fresh_document_free | exact Hd].
Qed.

(** ** Documents carry [FJ_SUCCESS] *)

(** What a call can do to the set of documents: nothing, add one whose error
    slot is [FJ_SUCCESS], or remove one. *)
Lemma exec_documents (c : api_call) w r w' :
  exec c w = Returns r w' ->
  documents w' = documents w
  \/ (exists a ds,
         error ds = FJ_SUCCESS /\ documents w' = <[a := ds]> (documents w))
  \/ (exists a, documents w' = delete a (documents w)).
Proof.
  intros Hc.
  assert (Hparse : forall p json len d r0 w0,
             fj_parser_parse p json len d w = Returns r0 w0 ->
             documents w0 = documents w
             \/ (exists a ds, error ds = FJ_SUCCESS
                              /\ documents w0 = <[a := ds]> (documents w))).
  { intros [pa|] [buf|] len [|d0] r0 w0 Hp;
      try (unfold fj_parser_parse in Hp; simpl in Hp; unfold ret in Hp;
           injection Hp as; subst; left; reflexivity).
    destruct (parsers w !! pa) as [ps|] eqn:Hps.
    - destruct (fj_parser_parse_cases pa ps buf len d0 w Hps)
        as [(_ & Hrun) | [(_ & s & _ & Hrun) | (_ & w1 & Hrun & Hd & _)]];
        rewrite Hrun in Hp; injection Hp as; subst.
      + left; reflexivity.
      + left; reflexivity.
      + right. eexists _, _. split; [|exact Hd]. reflexivity.
    - unfold fj_parser_parse, try_catch, bind, load in Hp. simpl in Hp.
      rewrite Hps in Hp. discriminate. }
  destruct c; simpl in Hc;
    try (unfold fmap_M, fj_parser_parse_padded, bind in Hc;
         match type of Hc with
         | context [fj_parser_parse ?p ?j ?l ?d w] =>
             destruct (fj_parser_parse p j l d w) as [r0 w0| |] eqn:Hp;
             try discriminate;
             unfold ret in Hc; injection Hc as; subst;
             destruct (Hparse _ _ _ _ _ _ Hp) as [?|?]; [left|right; left];
             assumption
         end);
    unfold_api Hc;
    repeat (first [settle Hc | branch Hc]);
    simpl; first [left; reflexivity | right; right; eexists; reflexivity].
Qed.

Lemma reachable_documents_success (w : world) :
  reachable w ->
  forall d ds, documents w !! d = Some ds -> error ds = FJ_SUCCESS.
Proof.
  induction 1 as [script | w c r w' Hw IH Hc]; intros d ds Hd.
  - simpl in Hd. rewrite lookup_empty in Hd. discriminate.
  - destruct (exec_documents c w r w' Hc) as [Heq | [(a & ds' & Hs & Heq) | (a & Heq)]];
      rewrite Heq in Hd.
    + eauto.
    + destruct (decide (a = d)) as [->|Hne].
      * rewrite lookup_insert_eq in Hd. congruence.
      * rewrite lookup_insert_ne in Hd by done. eauto.
    + destruct (decide (a = d)) as [->|Hne].
      * rewrite lookup_delete_eq in Hd. discriminate.
      * rewrite lookup_delete_ne in Hd by done. eauto.
Qed.

(** C9. In every state the interface can reach, each document that exists
    has [FJ_SUCCESS] in its error slot, and [fj_document_error] on its handle
    returns [FJ_SUCCESS]. *)
Theorem document_error_success (w : world) (d : positive)
    (ds : fj_document_s) :
  reachable w -> documents w !! d = Some ds ->
  error ds = FJ_SUCCESS
  /\ fj_document_error (Some d) w = Returns FJ_SUCCESS w.
Proof.
  intros Hw Hd.
  pose proof (reachable_documents_success w Hw d ds Hd) as Hs.
  split; [exact Hs|].
  unfold fj_document_error, bind, load, ret. simpl. rewrite Hd, Hs.
  reflexivity.
Qed.

(** ** The slot pools *)

Lemma store_element_eq (p : pool_id) (e : element) (w : world) :
  store_element p e w
  = Returns (slot_of p ((stored_idx (pool p (tls w)) + 1) mod 256)%N)
      (set_tls (pool_write p e (tls w)) w).
Proof. reflexivity. Qed.

Lemma pool_set_pool_eq (p : pool_id) s t : pool p (set_pool p s t) = s.
Proof. destruct p; reflexivity. Qed.

Lemma pool_set_pool_ne (p p' : pool_id) s t :
  p <> p' -> pool p' (set_pool p s t) = pool p' t.
Proof. destruct p, p'; intros Hne; try reflexivity; congruence. Qed.

Lemma pool_id_eqb_eq (p p' : pool_id) : pool_id_eqb p p' = true <-> p = p'.
Proof. destruct p, p'; simpl; split; congruence. Qed.

Lemma pools_sized_write (p : pool_id) (e : element) (w : world) :
  pools_sized w -> pools_sized (set_tls (pool_write p e (tls w)) w).
Proof.
  intros Hw p'. simpl. unfold pool_write.
  destruct (pool_id_eqb p p') eqn:E.
  - apply pool_id_eqb_eq in E. subst p'. rewrite pool_set_pool_eq. simpl.
    rewrite length_insert. apply Hw.
  - rewrite pool_set_pool_ne; [apply Hw|].
    intros ->. destruct p'; discriminate.
Qed.

(** The cell just written holds the element written. *)
Lemma load_after_write (p : pool_id) (e : element) (w : world) :
  pools_sized w ->
  load_element (slot_of p ((stored_idx (pool p (tls w)) + 1) mod 256)%N)
    (set_tls (pool_write p e (tls w)) w) = Some e.
Proof.
  intros Hw. simpl. unfold pool_write. rewrite pool_set_pool_eq. simpl.
  apply list_lookup_insert_eq. rewrite Hw.
  pose proof (N.mod_upper_bound (stored_idx (pool p (tls w)) + 1) 256).
  lia.
Qed.

(** ** Iterators *)

Lemma array_iter_next_more it l c x o (w : world) :
  array_iters w !! it
  = Some {| array := l; a_current := c; a_end := length l |} ->
  l !! c = Some x ->
  let i := ((stored_idx (pool in_array_iter_next (tls w)) + 1) mod 256)%N in
  let w1 := set_tls (pool_write in_array_iter_next x (tls w)) w in
  fj_array_iter_next (Some it) (out_cell o) w
  = Returns
      (true, out_cell {| impl := Some (slot_of in_array_iter_next i);
                         doc := None |})
      (set_array_iters
         (<[it := {| array := l; a_current := S c; a_end := length l |}]>
            (array_iters w1)) w1).
Proof.
  intros Hit Hx i w1. unfold fj_array_iter_next. simpl.
  unfold bind, load. rewrite Hit. simpl.
  apply lookup_lt_Some in Hx as Hlt.
  destruct (Nat.eqb c (length l)) eqn:E; [apply Nat.eqb_eq in E; lia|].
  unfold iter_deref. rewrite Hx. rewrite Hit. reflexivity.
Qed.

Lemma array_iter_next_done it l o (w : world) :
  array_iters w !! it
  = Some {| array := l; a_current := length l; a_end := length l |} ->
  fj_array_iter_next (Some it) (out_cell o) w = Returns (false, out_cell o) w.
Proof.
  intros Hit. unfold fj_array_iter_next. simpl.
  unfold bind, load. rewrite Hit. simpl. rewrite Nat.eqb_refl. reflexivity.
Qed.

Lemma array_iter_drain_done it l m (w : world) :
  array_iters w !! it
  = Some {| array := l; a_current := length l; a_end := length l |} ->
  array_iter_drain m (Some it) w = Returns (replicate m (false, None)) w.
Proof.
  intros Hit. induction m as [|m IH]; [reflexivity|].
  simpl. unfold bind at 1. rewrite (array_iter_next_done it l _ w Hit).
  unfold bind at 1. unfold bind at 1. rewrite IH. reflexivity.
Qed.

Lemma array_iter_drain_from it l m k : forall c (w : world),
  pools_sized w ->
  array_iters w !! it
  = Some {| array := l; a_current := c; a_end := length l |} ->
  (c + k = length l)%nat ->
  exists w1,
    array_iter_drain (k + m) (Some it) w
    = Returns (((fun x => (true, Some x)) <$> drop c l)
               ++ replicate m (false, None)) w1.
Proof.
  induction k as [|k IH]; intros c w Hw Hit Hc.
  - assert (c = length l) by lia. subst c.
    exists w. rewrite drop_all. simpl.
    apply (array_iter_drain_done it l m w Hit).
  - destruct (l !! c) as [x|] eqn:Hx;
      [| apply lookup_ge_None in Hx; lia].
    simpl. unfold bind at 1.
    rewrite (array_iter_next_more it l c x _ w Hit Hx).
    set (w1 := set_tls (pool_write in_array_iter_next x (tls w)) w).
    set (w2 := set_array_iters _ w1).
    unfold bind at 1. cbn [impl].
    assert (Hload : load_element
                      (slot_of in_array_iter_next
                         ((stored_idx (pool in_array_iter_next (tls w)) + 1)
                            mod 256)%N) w2 = Some x)
      by (apply (load_after_write in_array_iter_next x w Hw)).
    rewrite Hload.
    destruct (IH (S c) w2) as (w3 & Hrun).
    + intros p. apply (pools_sized_write in_array_iter_next x w Hw p).
    + subst w2. simpl. apply lookup_insert_eq.
    + lia.
    + exists w3. unfold bind at 1. rewrite Hrun. unfold ret. simpl.
      rewrite (drop_S l x c Hx). reflexivity.
Qed.

Lemma object_iter_next_more it l c f k0 n0 o (w : world) :
  object_iters w !! it
  = Some {| object := l; o_current := c; o_end := length l |} ->
  l !! c = Some f ->
  let i := ((stored_idx (pool in_object_iter_next (tls w)) + 1) mod 256)%N in
  let w1 := set_tls (pool_write in_object_iter_next f.2 (tls w)) w in
  fj_object_iter_next (Some it) (out_cell k0) (out_cell n0) (out_cell o) w
  = Returns
      {| next_more := true;
         next_key := out_cell f.1;
         next_key_len := out_cell (N.of_nat (String.length f.1));
         next_val := out_cell {| impl := Some (slot_of in_object_iter_next i);
                                 doc := None |} |}
      (set_object_iters
         (<[it := {| object := l; o_current := S c; o_end := length l |}]>
            (object_iters w1)) w1).
Proof.
  intros Hit Hf i w1. unfold fj_object_iter_next. simpl.
  unfold bind, load. rewrite Hit. simpl.
  apply lookup_lt_Some in Hf as Hlt.
  destruct (Nat.eqb c (length l)) eqn:E; [apply Nat.eqb_eq in E; lia|].
  unfold iter_deref. rewrite Hf. rewrite Hit. reflexivity.
Qed.

Lemma object_iter_next_done it l k0 n0 o (w : world) :
  object_iters w !! it
  = Some {| object := l; o_current := length l; o_end := length l |} ->
  fj_object_iter_next (Some it) (out_cell k0) (out_cell n0) (out_cell o) w
  = Returns {| next_more := false; next_key := out_cell k0;
               next_key_len := out_cell n0; next_val := out_cell o |} w.
Proof.
  intros Hit. unfold fj_object_iter_next. simpl.
  unfold bind, load. rewrite Hit. simpl. rewrite Nat.eqb_refl. reflexivity.
Qed.

Lemma object_iter_drain_done it l m (w : world) :
  object_iters w !! it
  = Some {| object := l; o_current := length l; o_end := length l |} ->
  object_iter_drain m (Some it) w = Returns (replicate m (false, None)) w.
Proof.
  intros Hit. induction m as [|m IH]; [reflexivity|].
  simpl. unfold bind at 1. rewrite (object_iter_next_done it l _ _ _ w Hit).
  unfold bind at 1. unfold bind at 1. rewrite IH. reflexivity.
Qed.

Lemma object_iter_drain_from it l m k : forall c (w : world),
  pools_sized w ->
  object_iters w !! it
  = Some {| object := l; o_current := c; o_end := length l |} ->
  (c + k = length l)%nat ->
  exists w1,
    object_iter_drain (k + m) (Some it) w
    = Returns ((field_item <$> drop c l) ++ replicate m (false, None)) w1.
Proof.
  induction k as [|k IH]; intros c w Hw Hit Hc.
  - assert (c = length l) by lia. subst c.
    exists w. rewrite drop_all. simpl.
    apply (object_iter_drain_done it l m w Hit).
  - destruct (l !! c) as [f|] eqn:Hf;
      [| apply lookup_ge_None in Hf; lia].
    simpl. unfold bind at 1.
    rewrite (object_iter_next_more it l c f _ _ _ w Hit Hf).
    set (w1 := set_tls (pool_write in_object_iter_next f.2 (tls w)) w).
    set (w2 := set_object_iters _ w1).
    unfold bind at 1. cbn [impl next_more next_key next_key_len next_val].
    assert (Hload : load_element
                      (slot_of in_object_iter_next
                         ((stored_idx (pool in_object_iter_next (tls w)) + 1)
                            mod 256)%N) w2 = Some f.2)
      by (apply (load_after_write in_object_iter_next f.2 w Hw)).
    rewrite Hload.
    destruct (IH (S c) w2) as (w3 & Hrun).
    + intros p. apply (pools_sized_write in_object_iter_next f.2 w Hw p).
    + subst w2. simpl. apply lookup_insert_eq.
    + lia.
    + exists w3. unfold bind at 1. rewrite Hrun. unfold ret. simpl.
      rewrite (drop_S l f c Hf). reflexivity.
Qed.

(** ** What a call does to the pools and to the iterators *)

Lemma derived_ref_failed (c : api_call) (e : fj_error) out :
  e <> FJ_SUCCESS -> derived_ref c (R_error_value e out) = None.
Proof. intros He. destruct c, e; try reflexivity; congruence. Qed.

(** A call leaves the thread-local storage alone unless it is a successful
    derivation, which writes one element into the next cell of its own
    pool and hands back that cell. *)
Lemma exec_tls (c : api_call) w r w' :
  exec c w = Returns r w' ->
  (derived_ref c r = None /\ tls w' = tls w)
  \/ (exists p e,
         call_pool c = Some p
         /\ derived_ref c r
            = Some (slot_of p ((stored_idx (pool p (tls w)) + 1) mod 256)%N)
         /\ tls w' = pool_write p e (tls w)).
Proof.
  intros Hc.
  destruct c; simpl in Hc;
    repeat match goal with
           | o : out_param _ |- _ => destruct o
           | v : fj_value |- _ => destruct v as [[?|] ?]
           | k : option string |- _ => destruct k
           | h : fj_array_iter |- _ => destruct h
           end;
    unfold_api Hc; simpl in Hc;
    repeat (first [settle Hc | branch Hc]);
    first
      [ exfalso; simpl in *; congruence
      | left; split; [reflexivity | reflexivity]
      | left; split;
        [ apply derived_ref_failed, is_error_map_error; assumption
        | reflexivity ]
      | match goal with
        | |- context [slot_of ?p _] =>
            right; exists p; eexists; split; [reflexivity|]; split;
            [ reflexivity | unfold pool_write; simpl; reflexivity ]
        end ].
Qed.

Lemma reachable_pools_sized (w : world) : reachable w -> pools_sized w.
Proof.
  induction 1 as [script | w c r w' Hw IH Hc].
  - intros p. destruct p; reflexivity.
  - destruct (exec_tls c w r w' Hc) as [[_ Heq] | (p & e & _ & _ & Heq)];
      intros p'; rewrite Heq; [apply IH|].
    apply (pools_sized_write p e w IH p').
Qed.

(** What a call can do to the array iterators: nothing, make one at an
    unused address, delete one, or step one forward by one position. *)
Lemma exec_array_iters (c : api_call) w r w' :
  exec c w = Returns r w' ->
  array_iters w' = array_iters w
  \/ (exists a s,
         array_iters w !! a = None
         /\ array_iters w' = <[a := s]> (array_iters w))
  \/ (exists a, array_iters w' = delete a (array_iters w))
  \/ (exists a s,
         array_iters w !! a = Some s
         /\ array_iters w'
            = <[a := {| array := array s; a_current := S (a_current s);
                        a_end := a_end s |}]> (array_iters w)).
Proof.
  intros Hc.
  destruct c; simpl in Hc; unfold_api Hc; simpl in Hc;
    repeat (first [settle Hc | branch Hc]);
    first
      [ exfalso; simpl in *; congruence
      | left; reflexivity
      | right; left; eexists _, _; split;
        [ apply not_elem_of_dom, is_fresh | reflexivity ]
      | right; right; left; eexists; reflexivity
      | right; right; right; eexists _, _; split; [| simpl; reflexivity];
        congruence ].
Qed.

Lemma exec_object_iters (c : api_call) w r w' :
  exec c w = Returns r w' ->
  object_iters w' = object_iters w
  \/ (exists a s,
         object_iters w !! a = None
         /\ object_iters w' = <[a := s]> (object_iters w))
  \/ (exists a, object_iters w' = delete a (object_iters w))
  \/ (exists a s,
         object_iters w !! a = Some s
         /\ object_iters w'
            = <[a := {| object := object s; o_current := S (o_current s);
                        o_end := o_end s |}]> (object_iters w)).
Proof.
  intros Hc.
  destruct c; simpl in Hc; unfold_api Hc; simpl in Hc;
    repeat (first [settle Hc | branch Hc]);
    first
      [ exfalso; simpl in *; congruence
      | left; reflexivity
      | right; left; eexists _, _; split;
        [ apply not_elem_of_dom, is_fresh | reflexivity ]
      | right; right; left; eexists; reflexivity
      | right; right; right; eexists _, _; split; [| simpl; reflexivity];
        congruence ].
Qed.

(** No call moves a live iterator backward or changes what it ranges over. *)
Lemma array_iter_forward (c : api_call) w r w' it s s' :
  exec c w = Returns r w' ->
  array_iters w !! it = Some s -> array_iters w' !! it = Some s' ->
  array s' = array s /\ a_end s' = a_end s
  /\ (a_current s <= a_current s')%nat.
Proof.
  intros Hc Hs Hs'.
  destruct (exec_array_iters c w r w' Hc)
    as [Heq | [(a & x & Ha & Heq) | [(a & Heq) | (a & x & Ha & Heq)]]];
    rewrite Heq in Hs'.
  - assert (s' = s) by congruence. subst. auto.
  - destruct (decide (a = it)) as [->|Hne]; [congruence|].
    rewrite lookup_insert_ne in Hs' by done.
    assert (s' = s) by congruence. subst. auto.
  - destruct (decide (a = it)) as [->|Hne].
    + rewrite lookup_delete_eq in Hs'. discriminate.
    + rewrite lookup_delete_ne in Hs' by done.
      assert (s' = s) by congruence. subst. auto.
  - destruct (decide (a = it)) as [->|Hne].
    + rewrite lookup_insert_eq in Hs'. injection Hs' as <-.
      assert (x = s) by congruence. subst. simpl. auto.
    + rewrite lookup_insert_ne in Hs' by done.
      assert (s' = s) by congruence. subst. auto.
Qed.

Lemma object_iter_forward (c : api_call) w r w' it s s' :
  exec c w = Returns r w' ->
  object_iters w !! it = Some s -> object_iters w' !! it = Some s' ->
  object s' = object s /\ o_end s' = o_end s
  /\ (o_current s <= o_current s')%nat.
Proof.
  intros Hc Hs Hs'.
  destruct (exec_object_iters c w r w' Hc)
    as [Heq | [(a & x & Ha & Heq) | [(a & Heq) | (a & x & Ha & Heq)]]];
    rewrite Heq in Hs'.
  - assert (s' = s) by congruence. subst. auto.
  - destruct (decide (a = it)) as [->|Hne]; [congruence|].
    rewrite lookup_insert_ne in Hs' by done.
    assert (s' = s) by congruence. subst. auto.
  - destruct (decide (a = it)) as [->|Hne].
    + rewrite lookup_delete_eq in Hs'. discriminate.
    + rewrite lookup_delete_ne in Hs' by done.
      assert (s' = s) by congruence. subst. auto.
  - destruct (decide (a = it)) as [->|Hne].
    + rewrite lookup_insert_eq in Hs'. injection Hs' as <-.
      assert (x = s) by congruence. subst. simpl. auto.
    + rewrite lookup_insert_ne in Hs' by done.
      assert (s' = s) by congruence. subst. auto.
Qed.

Lemma fj_array_iter_new_created (v : fj_value) q e l it0 it (w w0 : world) :
  impl v = Some q -> load_element q w = Some e ->
  get_array e = mk_result l SUCCESS ->
  fj_array_iter_new v (out_cell it0) w
  = Returns (FJ_SUCCESS, out_cell it) w0 ->
  exists a, it = Some a
            /\ array_iters w0 !! a = Some (fj_array_iter_s_ctor l)
            /\ tls w0 = tls w.
Proof.
  intros Hq He Hl Hnew. unfold fj_array_iter_new in Hnew.
  rewrite Hq in Hnew. simpl in Hnew. unfold bind at 1 in Hnew.
  rewrite (get_element_live v q e w Hq He), Hl in Hnew. simpl in Hnew.
  unfold try_catch, new_object, bind, operator_new, ret in Hnew.
  destruct (alloc_script w) as [|[|] s]; simpl in Hnew;
    try discriminate; injection Hnew as <- <-;
    eexists; (split; [reflexivity|]); simpl;
    (split; [apply lookup_insert_eq | reflexivity]).
Qed.

Lemma fj_object_iter_new_created (v : fj_value) q e l it0 it (w w0 : world) :
  impl v = Some q -> load_element q w = Some e ->
  get_object e = mk_result l SUCCESS ->
  fj_object_iter_new v (out_cell it0) w
  = Returns (FJ_SUCCESS, out_cell it) w0 ->
  exists a, it = Some a
            /\ object_iters w0 !! a = Some (fj_object_iter_s_ctor l)
            /\ tls w0 = tls w.
Proof.
  intros Hq He Hl Hnew. unfold fj_object_iter_new in Hnew.
  rewrite Hq in Hnew. simpl in Hnew. unfold bind at 1 in Hnew.
  rewrite (get_element_live v q e w Hq He), Hl in Hnew. simpl in Hnew.
  unfold try_catch, new_object, bind, operator_new, ret in Hnew.
  destruct (alloc_script w) as [|[|] s]; simpl in Hnew;
    try discriminate; injection Hnew as <- <-;
    eexists; (split; [reflexivity|]); simpl;
    (split; [apply lookup_insert_eq | reflexivity]).
Qed.

(** C4. For an array value with children [l], [fj_value_array_size] reports
    [length l], and on an iterator made by [fj_array_iter_new] the first
    [length l] calls of [fj_array_iter_next] return true, the value handed
    back by the [k]-th pointing to the [k]-th child, and every later call
    returns false.  The same holds for objects, each step also giving the
    field's key and its length.  No call of the interface moves a live
    iterator's position backward, and none changes what it ranges over. *)
Theorem iterator_yields_each_child_once :
  (forall (v : fj_value) q e l it0 it n0 (w w0 : world),
      reachable w ->
      impl v = Some q -> load_element q w = Some e ->
      get_array e = mk_result l SUCCESS ->
      fj_array_iter_new v (out_cell it0) w
      = Returns (FJ_SUCCESS, out_cell it) w0 ->
      fj_value_array_size v (out_cell n0) w
      = Returns (FJ_SUCCESS, out_cell (N.of_nat (length l))) w
      /\ forall m, exists w1,
          array_iter_drain (length l + m) it w0
          = Returns (((fun x => (true, Some x)) <$> l)
                     ++ replicate m (false, None)) w1)
  /\ (forall (v : fj_value) q e l it0 it n0 (w w0 : world),
        reachable w ->
        impl v = Some q -> load_element q w = Some e ->
        get_object e = mk_result l SUCCESS ->
        fj_object_iter_new v (out_cell it0) w
        = Returns (FJ_SUCCESS, out_cell it) w0 ->
        fj_value_object_size v (out_cell n0) w
        = Returns (FJ_SUCCESS, out_cell (N.of_nat (length l))) w
        /\ forall m, exists w1,
            object_iter_drain (length l + m) it w0
            = Returns ((field_item <$> l) ++ replicate m (false, None)) w1)
  /\ (forall c (w : world) r w' it s s',
        exec c w = Returns r w' ->
        array_iters w !! it = Some s -> array_iters w' !! it = Some s' ->
        array s' = array s /\ a_end s' = a_end s
        /\ (a_current s <= a_current s')%nat)
  /\ (forall c (w : world) r w' it s s',
        exec c w = Returns r w' ->
        object_iters w !! it = Some s -> object_iters w' !! it = Some s' ->
        object s' = object s /\ o_end s' = o_end s
        /\ (o_current s <= o_current s')%nat).
Proof.
  split; [|split; [|split]].
  - intros v q e l it0 it n0 w w0 Hw Hq He Hl Hnew. split.
    + unfold fj_value_array_size. rewrite Hq. simpl. unfold bind.
      rewrite (get_element_live v q e w Hq He), Hl. reflexivity.
    + intros m.
      destruct (fj_array_iter_new_created v q e l it0 it w w0 Hq He Hl Hnew)
        as (a & -> & Ha & Htls).
      apply (array_iter_drain_from a l m (length l) 0%nat w0).
      * intros p. rewrite Htls. apply (reachable_pools_sized w Hw p).
      * exact Ha.
      * reflexivity.
  - intros v q e l it0 it n0 w w0 Hw Hq He Hl Hnew. split.
    + unfold fj_value_object_size. rewrite Hq. simpl. unfold bind.
      rewrite (get_element_live v q e w Hq He), Hl. reflexivity.
    + intros m.
      destruct (fj_object_iter_new_created v q e l it0 it w w0 Hq He Hl Hnew)
        as (a & -> & Ha & Htls).
      apply (object_iter_drain_from a l m (length l) 0%nat w0).
      * intros p. rewrite Htls. apply (reachable_pools_sized w Hw p).
      * exact Ha.
      * reflexivity.
  - apply array_iter_forward.
  - apply object_iter_forward.
Qed.

(** ** How long a handed-back cell stays *)

Lemma next_cell_differs (i : N) (k : nat) :
  (i < 256)%N -> (0 < k < 256)%nat -> ((i + N.of_nat k) mod 256 <> i)%N.
Proof.
  intros Hi Hk Heq.
  destruct (N.lt_ge_cases (i + N.of_nat k) 256) as [Hlt|Hge].
  - rewrite N.mod_small in Heq by exact Hlt. lia.
  - assert (Hm : ((i + N.of_nat k) mod 256 = i + N.of_nat k - 256)%N).
    { symmetry. apply (N.mod_unique _ 256 1); lia. }
    rewrite Hm in Heq. lia.
Qed.

Lemma next_cell_step (i : N) (j : nat) :
  (((i + N.of_nat j) mod 256 + 1) mod 256 = (i + N.of_nat (S j)) mod 256)%N.
Proof.
  rewrite N.Div0.add_mod_idemp_l. f_equal. lia.
Qed.

Lemma run_cons_returns (c : api_call) cs rs (w w2 : world) :
  run (c :: cs) w = Returns rs w2 ->
  exists r w1 rs',
    exec c w = Returns r w1 /\ run cs w1 = Returns rs' w2 /\ rs = r :: rs'.
Proof.
  simpl. intros Hrun.
  apply bind_returns in Hrun as (r & w1 & Hc & Hrun).
  apply bind_returns in Hrun as (rs' & w2' & Hcs & Hret).
  unfold ret in Hret. injection Hret as <- <-. eauto 6.
Qed.

(** A cell of pool [p] written [j] derivations ago survives a run as long as
    the derivations into [p], old and new together, stay below 256. *)
Lemma run_keeps_cell (p : pool_id) (i : N) : forall cs rs (w w2 : world) j,
  (i < 256)%N ->
  stored_idx (pool p (tls w)) = ((i + N.of_nat j) mod 256)%N ->
  run cs w = Returns rs w2 ->
  (j + derivations_into p cs rs < 256)%nat ->
  load_element (slot_of p i) w2 = load_element (slot_of p i) w.
Proof.
  induction cs as [|c cs IH]; intros rs w w2 j Hi Hidx Hrun Hcount.
  - simpl in Hrun. unfold ret in Hrun. injection Hrun as <- <-. reflexivity.
  - apply run_cons_returns in Hrun as (r & w1 & rs' & Hc & Hcs & ->).
    simpl in Hcount.
    destruct (exec_tls c w r w1 Hc) as [[Hnone Heq] | (p' & e & _ & Hd & Heq)].
    + rewrite Hnone in Hcount.
      rewrite (IH rs' w1 w2 j Hi); [simpl; rewrite Heq; reflexivity | | | ];
        [rewrite Heq; exact Hidx | exact Hcs | exact Hcount].
    + rewrite Hd in Hcount.
      destruct (pool_id_eqb p p') eqn:E.
      * apply pool_id_eqb_eq in E. subst p'.
        rewrite (IH rs' w1 w2 (S j) Hi).
        -- simpl. rewrite Heq. unfold pool_write.
           rewrite pool_set_pool_eq. simpl.
           apply list_lookup_insert_ne.
           rewrite Hidx, next_cell_step.
           pose proof (next_cell_differs i (S j) Hi). lia.
        -- rewrite Heq. unfold pool_write. rewrite pool_set_pool_eq. simpl.
           rewrite Hidx. apply next_cell_step.
        -- exact Hcs.
        -- lia.
      * assert (Hne : p' <> p)
          by (intros ->; destruct p; discriminate).
        rewrite (IH rs' w1 w2 j Hi).
        -- simpl. rewrite Heq. unfold pool_write.
           rewrite pool_set_pool_ne by exact Hne. reflexivity.
        -- rewrite Heq. unfold pool_write.
           rewrite pool_set_pool_ne by exact Hne. exact Hidx.
        -- exact Hcs.
        -- exact Hcount.
Qed.

(** C1, as the code has it.  Each of the five deriving functions keeps a ring
    of 256 cells and a cursor of its own.  A call that hands back a derived
    value writes the element into the cell after the cursor of its own ring
    (modulo 256), moves that cursor there, leaves the other four rings as
    they were, and returns a reference to that cell.  The reference keeps
    reading the same element through every later run of calls in which fewer
    than 256 derivations go into the same ring, however many go into the
    others. *)
Theorem slot_pool_per_function (c : api_call) (w w' : world) r q :
  reachable w ->
  exec c w = Returns r w' ->
  derived_ref c r = Some q ->
  exists p i e,
    call_pool c = Some p
    /\ q = slot_of p i
    /\ i = ((stored_idx (pool p (tls w)) + 1) mod 256)%N
    /\ stored_idx (pool p (tls w')) = i
    /\ load_element q w' = Some e
    /\ (forall p', p' <> p -> pool p' (tls w') = pool p' (tls w))
    /\ (forall cs rs w'',
           run cs w' = Returns rs w'' ->
           (derivations_into p cs rs < 256)%nat ->
           load_element q w'' = Some e).
Proof.
  intros Hw Hc Hq.
  destruct (exec_tls c w r w' Hc) as [[Hnone _] | (p & e & Hp & Hd & Heq)];
    [congruence|].
  rewrite Hd in Hq. injection Hq as <-.
  set (i := ((stored_idx (pool p (tls w)) + 1) mod 256)%N).
  assert (Hi : (i < 256)%N) by (apply N.mod_upper_bound; lia).
  assert (Hidx : stored_idx (pool p (tls w')) = i).
  { rewrite Heq. unfold pool_write. rewrite pool_set_pool_eq. reflexivity. }
  assert (Hload : load_element (slot_of p i) w' = Some e).
  { simpl. rewrite Heq. unfold pool_write. rewrite pool_set_pool_eq. simpl.
    apply list_lookup_insert_eq.
    rewrite (reachable_pools_sized w Hw p). fold i. lia. }
  exists p, i, e. repeat split; try assumption; try reflexivity.
  - intros p' Hne. rewrite Heq. unfold pool_write.
    apply pool_set_pool_ne. congruence.
  - intros cs rs w'' Hrun Hcount.
    rewrite (run_keeps_cell p i cs rs w' w'' 0%nat Hi); try assumption.
    rewrite Hidx, N.add_0_r. symmetry. apply N.mod_small, Hi.
Qed.


(** * Further properties of the interface *)

(** ** The lookups on a live value, as equations *)

Lemma fj_value_get_field_eq (v : fj_value) q e (k : string) out0 (w : world) :
  impl v = Some q -> load_element q w = Some e ->
  fj_value_get_field v (Some k) (out_cell out0) w
  = if is_error (result_error (get_object e)) then
      Returns (map_error (result_error (get_object e)), out_cell out0) w
    else
      let found := object_at_key (result_value (get_object e)) (c_str k) in
      if is_error (result_error found) then
        Returns (map_error (result_error found), out_cell out0) w
      else
        Returns
          (FJ_SUCCESS,
           out_cell
             {| impl :=
                  Some (slot_of in_get_field
                          ((stored_idx (pool in_get_field (tls w)) + 1)
                             mod 256)%N);
                doc := doc v |})
          (set_tls (pool_write in_get_field (result_value found) (tls w)) w).
Proof.
  intros Hq He. unfold fj_value_get_field. rewrite Hq.
  cbn [is_nullptr is_null_out orb].
  unfold bind, get_element, bytes_at, ret. rewrite Hq, He.
  destruct (is_error (result_error (get_object e))); [reflexivity|].
  cbv zeta.
  destruct (is_error (result_error (object_at_key _ _))); reflexivity.
Qed.

Lemma fj_value_get_field_len_eq (v : fj_value) q e (k : string) (key_len : N)
    out0 (w : world) :
  impl v = Some q -> load_element q w = Some e ->
  fj_value_get_field_len v (Some k) key_len (out_cell out0) w
  = if is_error (result_error (get_object e)) then
      Returns (map_error (result_error (get_object e)), out_cell out0) w
    else
      let found :=
        object_at_key (result_value (get_object e)) (string_view k key_len) in
      if is_error (result_error found) then
        Returns (map_error (result_error found), out_cell out0) w
      else
        Returns
          (FJ_SUCCESS,
           out_cell
             {| impl :=
                  Some (slot_of in_get_field_len
                          ((stored_idx (pool in_get_field_len (tls w)) + 1)
                             mod 256)%N);
                doc := doc v |})
          (set_tls (pool_write in_get_field_len (result_value found) (tls w))
             w).
Proof.
  intros Hq He. unfold fj_value_get_field_len. rewrite Hq.
  cbn [is_nullptr is_null_out orb].
  unfold bind, get_element, bytes_at, ret. rewrite Hq, He.
  destruct (is_error (result_error (get_object e))); [reflexivity|].
  cbv zeta.
  destruct (is_error (result_error (object_at_key _ _))); reflexivity.
Qed.

Lemma fj_value_get_index_eq (v : fj_value) q e (idx : N) out0 (w : world) :
  impl v = Some q -> load_element q w = Some e ->
  fj_value_get_index v idx (out_cell out0) w
  = if is_error (result_error (get_array e)) then
      Returns (map_error (result_error (get_array e)), out_cell out0) w
    else
      let found := array_at (result_value (get_array e)) idx in
      if is_error (result_error found) then
        Returns (map_error (result_error found), out_cell out0) w
      else
        Returns
          (FJ_SUCCESS,
           out_cell
             {| impl :=
                  Some (slot_of in_get_index
                          ((stored_idx (pool in_get_index (tls w)) + 1)
                             mod 256)%N);
                doc := doc v |})
          (set_tls (pool_write in_get_index (result_value found) (tls w)) w).
Proof.
  intros Hq He. unfold fj_value_get_index. rewrite Hq.
  cbn [is_nullptr is_null_out orb].
  unfold bind, get_element, ret. rewrite Hq, He.
  destruct (is_error (result_error (get_array e))); [reflexivity|].
  cbv zeta.
  destruct (is_error (result_error (array_at _ _))); reflexivity.
Qed.

(** ** Index lookup *)

Lemma array_at_spec (l : list element) (idx : N) :
  match l !! N.to_nat idx with
  | Some x => array_at l idx = mk_result x SUCCESS
  | None => array_at l idx = mk_result default_element INDEX_OUT_OF_BOUNDS
  end.
Proof. unfold array_at. destruct (l !! N.to_nat idx); reflexivity. Qed.

(** X1. Index lookup on a live array value with children [l]: an index
    below [length l] gives [FJ_SUCCESS], a value that carries the input's
    [doc] and reads as the child at that index; any other index gives
    [FJ_ERROR_INDEX_OUT_OF_BOUNDS] and leaves [*out] and the state as they
    were. *)
Theorem get_index_bounds (v : fj_value) q e l (idx : N) out0 (w : world) :
  reachable w ->
  impl v = Some q -> load_element q w = Some e ->
  get_array e = mk_result l SUCCESS ->
  ((N.to_nat idx < length l)%nat ->
   exists x q' w',
     l !! N.to_nat idx = Some x
     /\ fj_value_get_index v idx (out_cell out0) w
        = Returns (FJ_SUCCESS, out_cell {| impl := Some q'; doc := doc v |}) w'
     /\ load_element q' w' = Some x)
  /\ ((length l <= N.to_nat idx)%nat ->
      fj_value_get_index v idx (out_cell out0) w
      = Returns (FJ_ERROR_INDEX_OUT_OF_BOUNDS, out_cell out0) w).
Proof.
  intros Hw Hq He Hl.
  rewrite (fj_value_get_index_eq v q e idx out0 w Hq He), Hl.
  cbn [result_error result_value is_error]. cbv zeta.
  pose proof (array_at_spec l idx) as Hat.
  split.
  - intros Hlt. destruct (l !! N.to_nat idx) as [x|] eqn:Hx;
      [| apply lookup_ge_None in Hx; lia].
    rewrite Hat. cbn [result_error result_value is_error].
    eexists x, _, _. split; [reflexivity|]. split; [reflexivity|].
    apply (load_after_write in_get_index x w (reachable_pools_sized w Hw)).
  - intros Hge. destruct (l !! N.to_nat idx) as [x|] eqn:Hx;
      [apply lookup_lt_Some in Hx; lia|].
    rewrite Hat. reflexivity.
Qed.

(** X2. Whatever value it is asked about: once [fj_value_array_size] has
    reported [n], [fj_value_get_index] succeeds for exactly the indices
    below [n]. *)
Theorem array_size_bounds_index (v : fj_value) n0 n out0 (idx : N)
    (w w1 : world) :
  fj_value_array_size v (out_cell n0) w
  = Returns (FJ_SUCCESS, out_cell n) w1 ->
  (exists out w', fj_value_get_index v idx (out_cell out0) w
                  = Returns (FJ_SUCCESS, out) w')
  <-> (idx < n)%N.
Proof.
  unfold fj_value_array_size.
  destruct (impl v) as [q|] eqn:Hq; cbn [is_nullptr is_null_out orb];
    [|intros [=]].
  unfold bind, get_element. rewrite Hq.
  destruct (load_element q w) as [e|] eqn:He; [|discriminate].
  rewrite (fj_value_get_index_eq v q e idx out0 w Hq He).
  destruct (is_error (result_error (get_array e))) eqn:Ea.
  { unfold ret. intros [= Hs]. apply map_error_success in Hs.
    rewrite Hs in Ea. discriminate. }
  unfold ret. intros [= <- <-]. cbv zeta.
  pose proof (array_at_spec (result_value (get_array e)) idx) as Hat.
  destruct (result_value (get_array e) !! N.to_nat idx) as [x|] eqn:Hx;
    rewrite Hat; cbn [result_error result_value is_error].
  - apply lookup_lt_Some in Hx. split; [lia|]. intros _. eauto.
  - apply lookup_ge_None in Hx. split; [|lia].
    intros (? & ? & [=]).
Qed.

(** ** Field lookup, continued *)

Lemma object_at_key_present (o : list (string * element)) (key : string) :
  key ∈ o.*1 ->
  exists x, (key, x) ∈ o /\ object_at_key o key = mk_result x SUCCESS.
Proof.
  induction o as [|[k e] o IH]; simpl; intros Hk.
  - apply elem_of_nil in Hk. destruct Hk.
  - destruct (String.eqb k key) eqn:E.
    + apply String.eqb_eq in E. subst. exists e.
      split; [apply elem_of_cons; left; reflexivity | reflexivity].
    + apply String.eqb_neq in E.
      apply elem_of_cons in Hk as [Hk|Hk]; [congruence|].
      destruct (IH Hk) as (x & Hin & Heq).
      exists x. split; [apply elem_of_cons; right; exact Hin | exact Heq].
Qed.

(** X3. Field lookup on a live object value for a key one of its fields
    has: [fj_value_get_field] gives [FJ_SUCCESS] and a value that carries the
    input's [doc] and reads as a field of that key, and [fj_value_has_field]
    answers true. *)
Theorem get_field_present (v : fj_value) q e fields (k : string) out0
    (w : world) :
  reachable w ->
  impl v = Some q -> load_element q w = Some e ->
  get_object e = mk_result fields SUCCESS ->
  c_str k ∈ fields.*1 ->
  exists x q' w',
    (c_str k, x) ∈ fields
    /\ fj_value_get_field v (Some k) (out_cell out0) w
       = Returns (FJ_SUCCESS, out_cell {| impl := Some q'; doc := doc v |}) w'
    /\ load_element q' w' = Some x
    /\ fj_value_has_field v (Some k) w = Returns true w.
Proof.
  intros Hw Hq He Ho Hk.
  destruct (object_at_key_present fields (c_str k) Hk) as (x & Hin & Hat).
  eexists x, _, _. split; [exact Hin|].
  rewrite (fj_value_get_field_eq v q e k out0 w Hq He), Ho.
  cbn [result_error result_value is_error]. cbv zeta. rewrite Hat.
  cbn [result_error result_value is_error].
  split; [reflexivity|].
  split; [apply (load_after_write in_get_field x w
                   (reachable_pools_sized w Hw))|].
  unfold fj_value_has_field. rewrite Hq. cbn [is_nullptr orb].
  unfold bind, bytes_at, ret.
  rewrite (get_element_live v q e w Hq He), Ho.
  cbn [result_error result_value is_error]. rewrite Hat. reflexivity.
Qed.

Lemma substring_whole (s : string) :
  String.substring 0 (String.length s) s = s.
Proof.
  induction s as [|c s IH]; simpl; [reflexivity | rewrite IH; reflexivity].
Qed.

Lemma string_view_whole (s : string) :
  string_view s (N.of_nat (String.length s)) = s.
Proof. unfold string_view. rewrite Nat2N.id. apply substring_whole. Qed.

Lemma string_view_strlen (s : string) :
  string_view s (N.of_nat (String.length (c_str s))) = c_str s.
Proof.
  unfold string_view. rewrite Nat2N.id.
  induction s as [|c s IH]; simpl; [reflexivity|].
  destruct (Ascii.eqb c Ascii.zero); simpl; [reflexivity|].
  rewrite IH. reflexivity.
Qed.

(** X4. [fj_value_get_field_len] with the key's [strlen] as length does
    what [fj_value_get_field] does: both return the same code and leave
    values that read as the same element; on success the two values carry
    the same [doc] and point into the pool of their own function. *)
Theorem get_field_len_strlen (v : fj_value) (k : string) out0 (w : world)
    e1 o1 w1 :
  reachable w ->
  fj_value_get_field v (Some k) (out_cell out0) w = Returns (e1, o1) w1 ->
  exists o2 w2,
    fj_value_get_field_len v (Some k) (N.of_nat (String.length (c_str k)))
      (out_cell out0) w
    = Returns (e1, o2) w2
    /\ pointee_of o2 w2 = pointee_of o1 w1
    /\ (e1 = FJ_SUCCESS ->
        exists i1 i2 d,
          o1 = out_cell {| impl := Some (slot_of in_get_field i1); doc := d |}
          /\ o2 = out_cell {| impl := Some (slot_of in_get_field_len i2);
                              doc := d |}
          /\ is_Some (pointee_of o1 w1)).
Proof.
  intros Hw.
  destruct (impl v) as [q|] eqn:Hq.
  2:{ unfold fj_value_get_field, fj_value_get_field_len. rewrite Hq.
      cbn [is_nullptr orb]. unfold ret. intros [= <- <- <-]. eexists _, _.
      split; [reflexivity|]. split; [reflexivity|]. discriminate. }
  destruct (load_element q w) as [e|] eqn:He.
  2:{ unfold fj_value_get_field. rewrite Hq.
      cbn [is_nullptr is_null_out orb]. unfold bind, get_element.
      rewrite Hq, He. discriminate. }
  rewrite (fj_value_get_field_eq v q e k out0 w Hq He).
  rewrite (fj_value_get_field_len_eq v q e k _ out0 w Hq He).
  rewrite string_view_strlen.
  destruct (is_error (result_error (get_object e))) eqn:Eo.
  { intros [= <- <- <-]. eexists _, _.
    split; [reflexivity|]. split; [reflexivity|].
    intros Hs. apply map_error_success in Hs. rewrite Hs in Eo.
    discriminate. }
  cbv zeta.
  destruct (is_error (result_error (object_at_key _ _))) eqn:Ef.
  { intros [= <- <- <-]. eexists _, _.
    split; [reflexivity|]. split; [reflexivity|].
    intros Hs. apply map_error_success in Hs. rewrite Hs in Ef.
    discriminate. }
  intros [= <- <- <-].
  eexists _, _. split; [reflexivity|].
  pose proof (reachable_pools_sized w Hw) as Hsz.
  split.
  - transitivity
      (Some (result_value
               (object_at_key (result_value (get_object e)) (c_str k)))).
    + apply (load_after_write in_get_field_len _ w Hsz).
    + symmetry. apply (load_after_write in_get_field _ w Hsz).
  - intros _. eexists _, _, _.
    split; [reflexivity|]. split; [reflexivity|].
    eexists. apply (load_after_write in_get_field _ w Hsz).
Qed.

(** X5. Every key an object iteration yields can be looked up with
    [fj_value_get_field_len], given the key and its length as yielded: for a
    field [(k, x)] of a live object value the lookup with length
    [String.length k] succeeds and reads as a field of key [k]. *)
Theorem iterated_key_found (v : fj_value) q e fields (k : string) x out0
    (w : world) :
  reachable w ->
  impl v = Some q -> load_element q w = Some e ->
  get_object e = mk_result fields SUCCESS ->
  (k, x) ∈ fields ->
  field_item (k, x) = (true, Some (k, N.of_nat (String.length k), x))
  /\ exists x' q' w',
      (k, x') ∈ fields
      /\ fj_value_get_field_len v (Some k) (N.of_nat (String.length k))
           (out_cell out0) w
         = Returns (FJ_SUCCESS, out_cell {| impl := Some q'; doc := doc v |})
             w'
      /\ load_element q' w' = Some x'.
Proof.
  intros Hw Hq He Ho Hin. split; [reflexivity|].
  assert (Hk : k ∈ fields.*1).
  { apply list_elem_of_fmap. exists (k, x). split; [reflexivity | exact Hin]. }
  destruct (object_at_key_present fields k Hk) as (x' & Hin' & Hat).
  eexists x', _, _. split; [exact Hin'|].
  rewrite (fj_value_get_field_len_eq v q e k _ out0 w Hq He), Ho.
  cbn [result_error result_value is_error]. cbv zeta.
  rewrite string_view_whole, Hat.
  cbn [result_error result_value is_error].
  split; [reflexivity|].
  apply (load_after_write in_get_field_len x' w (reachable_pools_sized w Hw)).
Qed.

(** ** Failure leaves no trace *)

(** Settles a goal about one value function after unfolding: every failing
    branch returns the out-parameter and the state it was given. *)
Tactic Notation "failure_untouched" ident(H) ident(He) :=
  unfold_api H; simpl in H;
  repeat (first [settle H | branch H]);
  first [ exfalso; apply He; reflexivity | split; reflexivity ].

(** X6. When an extraction, a field or index lookup or a size query returns
    anything but [FJ_SUCCESS], it has written none of its out-parameters and
    has not changed the state: no cell of any pool is used up by a failed
    lookup. *)
Theorem failure_writes_nothing (w : world) :
  (forall (v : fj_value) out e out' w',
      fj_value_get_bool v out w = Returns (e, out') w' ->
      e <> FJ_SUCCESS -> out' = out /\ w' = w)
  /\ (forall (v : fj_value) out e out' w',
        fj_value_get_int64 v out w = Returns (e, out') w' ->
        e <> FJ_SUCCESS -> out' = out /\ w' = w)
  /\ (forall (v : fj_value) out e out' w',
        fj_value_get_uint64 v out w = Returns (e, out') w' ->
        e <> FJ_SUCCESS -> out' = out /\ w' = w)
  /\ (forall (v : fj_value) out e out' w',
        fj_value_get_double v out w = Returns (e, out') w' ->
        e <> FJ_SUCCESS -> out' = out /\ w' = w)
  /\ (forall (v : fj_value) out len e out' len' w',
        fj_value_get_string v out len w = Returns (e, out', len') w' ->
        e <> FJ_SUCCESS -> (out' = out /\ len' = len) /\ w' = w)
  /\ (forall (v : fj_value) key out e out' w',
        fj_value_get_field v key out w = Returns (e, out') w' ->
        e <> FJ_SUCCESS -> out' = out /\ w' = w)
  /\ (forall (v : fj_value) key key_len out e out' w',
        fj_value_get_field_len v key key_len out w = Returns (e, out') w' ->
        e <> FJ_SUCCESS -> out' = out /\ w' = w)
  /\ (forall (v : fj_value) idx out e out' w',
        fj_value_get_index v idx out w = Returns (e, out') w' ->
        e <> FJ_SUCCESS -> out' = out /\ w' = w)
  /\ (forall (v : fj_value) out e out' w',
        fj_value_object_size v out w = Returns (e, out') w' ->
        e <> FJ_SUCCESS -> out' = out /\ w' = w)
  /\ (forall (v : fj_value) out e out' w',
        fj_value_array_size v out w = Returns (e, out') w' ->
        e <> FJ_SUCCESS -> out' = out /\ w' = w).
Proof.
  repeat match goal with |- _ /\ _ => split end.
  - intros v out e out' w' Hrun He. failure_untouched Hrun He.
  - intros v out e out' w' Hrun He. failure_untouched Hrun He.
  - intros v out e out' w' Hrun He. failure_untouched Hrun He.
  - intros v out e out' w' Hrun He. failure_untouched Hrun He.
  - intros v out len e out' len' w' Hrun He.
    unfold_api Hrun; simpl in Hrun;
      repeat (first [settle Hrun | branch Hrun]);
      first [ exfalso; apply He; reflexivity | repeat split; reflexivity ].
  - intros v key out e out' w' Hrun He. failure_untouched Hrun He.
  - intros v key key_len out e out' w' Hrun He. failure_untouched Hrun He.
  - intros v idx out e out' w' Hrun He. failure_untouched Hrun He.
  - intros v out e out' w' Hrun He. failure_untouched Hrun He.
  - intros v out e out' w' Hrun He. failure_untouched Hrun He.
Qed.

(** X7. The calls that only read (root, error and message queries, type
    queries and predicates, extractions, the field probe, size queries,
    padding, minify and validate) return with the state exactly as it was:
    parsers, documents, iterators, pools, cached name and allocation
    script. *)
Theorem read_only_keeps_state (c : api_call) (w w' : world) r :
  read_only c = true -> exec c w = Returns r w' -> w' = w.
Proof.
  intros Hro Hc.
  destruct c; try discriminate Hro; simpl in Hc; unfold_api Hc;
    repeat (first [settle Hc | branch Hc]); reflexivity.
Qed.

(** ** Numbers *)

(** X8. [fj_value_is_number] and [fj_value_type] agree: on any value for
    which both return, the predicate is true exactly when the type tag is
    one of Int64, UInt64 and Double. *)
Theorem is_number_iff_type (v : fj_value) (w w1 w2 : world) b t :
  fj_value_is_number v w = Returns b w1 ->
  fj_value_type v w = Returns t w2 ->
  (b = true <-> t ∈ [FJ_TYPE_INT64; FJ_TYPE_UINT64; FJ_TYPE_DOUBLE]).
Proof.
  unfold fj_value_is_number, fj_value_type.
  destruct (impl v) as [q|] eqn:Hq; cbn [is_nullptr].
  - unfold bind, get_element, ret. rewrite Hq.
    destruct (load_element q w) as [e|]; [|discriminate].
    intros [= <- _] [= <- _].
    destruct (el_type e); simpl; split; intros Hx;
      try discriminate; try reflexivity;
      try (apply elem_of_cons; auto; fail);
      try (apply elem_of_cons; right; apply elem_of_cons; auto; fail);
      try (apply elem_of_cons; right; apply elem_of_cons; right;
           apply elem_of_cons; auto; fail);
      exfalso;
      repeat (apply elem_of_cons in Hx as [Hx|Hx]; [discriminate|]);
      apply elem_of_nil in Hx; exact Hx.
  - unfold ret. intros [= <- _] [= <- _]. split; [discriminate|].
    intros Hx.
    repeat (apply elem_of_cons in Hx as [Hx|Hx]; [discriminate|]).
    apply elem_of_nil in Hx. destruct Hx.
Qed.

(** ** From parse to the root *)

(** X9. After a successful [fj_parser_parse] the handle stored in [*doc] is
    non-null, [fj_document_root] of it carries that handle as [doc] and
    reads as the tree the engine made from the parser's configuration and
    the input, and [fj_value_type] of it is that tree's type. *)
Theorem parse_then_root (p : fj_parser) (json : option string) (len : N)
    d0 d (w w' : world) :
  fj_parser_parse p json len (out_cell d0) w
  = Returns (FJ_SUCCESS, out_cell d) w' ->
  exists pa ps buf a,
    p = Some pa /\ parsers w !! pa = Some ps /\ json = Some buf
    /\ d = Some a
    /\ doc (fj_document_root d) = Some a
    /\ pointee (fj_document_root d) w'
       = Some (result_value (parser_parse (parser ps) buf len))
    /\ fj_value_type (fj_document_root d) w'
       = Returns
           (map_type
              (el_type (result_value (parser_parse (parser ps) buf len))))
           w'.
Proof.
  intros Hrun.
  destruct p as [pa|]; [|discriminate Hrun].
  destruct json as [buf|]; [|discriminate Hrun].
  destruct (parsers w !! pa) as [ps|] eqn:Hps.
  2:{ unfold fj_parser_parse, try_catch, bind, load in Hrun.
      simpl in Hrun. rewrite Hps in Hrun. discriminate. }
  destruct (fj_parser_parse_cases pa ps buf len d0 w Hps)
    as [(Herr & Hrun') | [(_ & s & _ & Hrun') | (_ & w1 & Hrun' & Hd & _)]];
    rewrite Hrun' in Hrun.
  - injection Hrun as Hs _ _. apply map_error_success in Hs.
    rewrite Hs in Herr. discriminate.
  - discriminate Hrun.
  - injection Hrun as <- <-.
    assert (Hroot : pointee (fj_document_root (Some (fresh (dom (documents w)))))
                      w1
                    = Some (result_value (parser_parse (parser ps) buf len))).
    { unfold pointee. simpl. rewrite Hd, lookup_insert_eq. reflexivity. }
    exists pa, ps, buf, (fresh (dom (documents w))).
    repeat split; try reflexivity; try assumption.
    unfold fj_value_type. cbn [fj_document_root impl is_nullptr].
    unfold bind, get_element, ret. cbn [fj_document_root impl].
    unfold pointee in Hroot. cbn [fj_document_root impl] in Hroot.
    rewrite Hroot. reflexivity.
Qed.

(** ** Validation against parsing *)

(** X10. [fj_validate] judges a text as [fj_parser_parse] does on a parser
    made with capacity 0: the parse returns the code [fj_validate] returns,
    except when the text is valid and the allocation of the document fails,
    where the parse returns [FJ_ERROR_UNEXPECTED_ERROR] and stores a null
    handle. *)
Theorem validate_agrees_with_parse pa ps (buf : string) (len : N) d0 e o
    (w w' : world) :
  parsers w !! pa = Some ps ->
  ps = fj_parser_s_ctor 0 ->
  fj_parser_parse (Some pa) (Some buf) len (out_cell d0) w
  = Returns (e, o) w' ->
  e = fj_validate (Some buf) len
  \/ (fj_validate (Some buf) len = FJ_SUCCESS
      /\ e = FJ_ERROR_UNEXPECTED_ERROR /\ o = out_cell None
      /\ head (alloc_script w) = Some false).
Proof.
  intros Hps -> Hrun.
  destruct (fj_parser_parse_cases pa _ buf len d0 w Hps)
    as [(_ & Hrun') | [(Hok & s & Hs & Hrun') | (Hok & w1 & Hrun' & _)]];
    rewrite Hrun' in Hrun; injection Hrun as <- <- <-;
    unfold fj_validate; simpl in *.
  - left. reflexivity.
  - right. rewrite Hok, Hs. repeat split; reflexivity.
  - left. rewrite Hok. reflexivity.
Qed.

(** ** The cached implementation name *)

Lemma exec_cached_impl_name (c : api_call) (w w' : world) r :
  exec c w = Returns r w' ->
  cached_impl_name w' = cached_impl_name w
  \/ cached_impl_name w' = Some active_implementation_name.
Proof.
  intros Hc.
  destruct c; simpl in Hc; unfold_api Hc;
    repeat (first [settle Hc | branch Hc]);
    first [ exfalso; simpl in *; congruence
          | left; reflexivity
          | left; assumption
          | right; reflexivity ].
Qed.

Lemma reachable_cached_impl_name (w : world) :
  reachable w ->
  cached_impl_name w = None
  \/ cached_impl_name w = Some active_implementation_name.
Proof.
  induction 1 as [script | w c r w' Hw IH Hc]; [left; reflexivity|].
  destruct (exec_cached_impl_name c w w' r Hc) as [Heq | Heq];
    [rewrite Heq; exact IH | right; exact Heq].
Qed.

(** X11. In every state the interface can reach,
    [fj_active_implementation] returns the engine's implementation name,
    whether the cache is still empty or not; after the call the name is
    cached, and calling again changes nothing. *)
Theorem active_implementation_stable (w : world) :
  reachable w ->
  exists w',
    fj_active_implementation w = Returns active_implementation_name w'
    /\ cached_impl_name w' = Some active_implementation_name
    /\ fj_active_implementation w' = Returns active_implementation_name w'.
Proof.
  intros Hw. unfold fj_active_implementation.
  destruct (reachable_cached_impl_name w Hw) as [Hc | Hc]; rewrite Hc.
  - eexists. split; [reflexivity|]. simpl. split; reflexivity.
  - eexists. split; [reflexivity|]. rewrite Hc. split; reflexivity.
Qed.

(** ** Iterators, continued *)

(** X12. A [next] call with a null out-parameter returns false although
    children remain, and consumes nothing: the state is as before, so the
    same iterator still yields the pending child to a call with valid
    out-parameters.  The same holds for an object iterator when any of
    [key], [key_len] and [val] is null. *)
Theorem next_null_out_consumes_nothing :
  (forall it l c x out0 (w : world),
      array_iters w !! it
      = Some {| array := l; a_current := c; a_end := length l |} ->
      l !! c = Some x ->
      fj_array_iter_next (Some it) null_out w = Returns (false, null_out) w
      /\ exists q w',
          fj_array_iter_next (Some it) (out_cell out0) w
          = Returns (true, out_cell {| impl := Some q; doc := None |}) w')
  /\ (forall it l c f key key_len val k0 n0 v0 (w : world),
        object_iters w !! it
        = Some {| object := l; o_current := c; o_end := length l |} ->
        l !! c = Some f ->
        is_null_out key || is_null_out key_len || is_null_out val = true ->
        fj_object_iter_next (Some it) key key_len val w
        = Returns {| next_more := false; next_key := key;
                     next_key_len := key_len; next_val := val |} w
        /\ exists r w',
            fj_object_iter_next (Some it) (out_cell k0) (out_cell n0)
              (out_cell v0) w
            = Returns r w'
            /\ next_more r = true /\ next_key r = out_cell f.1).
Proof.
  split.
  - intros it l c x out0 w Hit Hx. split; [reflexivity|].
    eexists _, _. apply (array_iter_next_more it l c x out0 w Hit Hx).
  - intros it l c f key key_len val k0 n0 v0 w Hit Hf Hnull. split.
    + unfold fj_object_iter_next. cbn [is_nullptr orb]. rewrite Hnull.
      reflexivity.
    + eexists _, _.
      split; [apply (object_iter_next_more it l c f k0 n0 v0 w Hit Hf)|].
      split; reflexivity.
Qed.

(** X13. [fj_array_iter_new] is all or nothing.  Either it returns
    [FJ_SUCCESS] and stores the handle of one new iterator, at an address no
    live iterator has, positioned before the first child of the value's
    array; or it returns another code, does not write [*iter] and makes no
    iterator.  The failures are a null value, the engine refusing the value
    as an array, and a failed allocation, reported as [FJ_ERROR_MEMALLOC].
    [fj_object_iter_new] behaves alike. *)
Theorem iter_new_all_or_nothing :
  (forall (v : fj_value) it0 e o (w w' : world),
      fj_array_iter_new v (out_cell it0) w = Returns (e, o) w' ->
      (e = FJ_SUCCESS
       /\ exists a q el,
           o = out_cell (Some a)
           /\ impl v = Some q /\ load_element q w = Some el
           /\ result_error (get_array el) = SUCCESS
           /\ array_iters w !! a = None
           /\ array_iters w'
              = <[a := {| array := result_value (get_array el);
                          a_current := 0;
                          a_end := length (result_value (get_array el)) |}]>
                  (array_iters w))
      \/ (e <> FJ_SUCCESS /\ o = out_cell it0
          /\ array_iters w' = array_iters w
          /\ (e = FJ_ERROR_UNINITIALIZED /\ impl v = None
              \/ (exists q el, impl v = Some q /\ load_element q w = Some el
                               /\ is_error (result_error (get_array el)) = true
                               /\ e = map_error (result_error (get_array el)))
              \/ (e = FJ_ERROR_MEMALLOC
                  /\ head (alloc_script w) = Some false))))
  /\ (forall (v : fj_value) it0 e o (w w' : world),
        fj_object_iter_new v (out_cell it0) w = Returns (e, o) w' ->
        (e = FJ_SUCCESS
         /\ exists a q el,
             o = out_cell (Some a)
             /\ impl v = Some q /\ load_element q w = Some el
             /\ result_error (get_object el) = SUCCESS
             /\ object_iters w !! a = None
             /\ object_iters w'
                = <[a := {| object := result_value (get_object el);
                            o_current := 0;
                            o_end := length (result_value (get_object el)) |}]>
                    (object_iters w))
        \/ (e <> FJ_SUCCESS /\ o = out_cell it0
            /\ object_iters w' = object_iters w
            /\ (e = FJ_ERROR_UNINITIALIZED /\ impl v = None
                \/ (exists q el,
                       impl v = Some q /\ load_element q w = Some el
                       /\ is_error (result_error (get_object el)) = true
                       /\ e = map_error (result_error (get_object el)))
                \/ (e = FJ_ERROR_MEMALLOC
                    /\ head (alloc_script w) = Some false)))).
Proof.
  split.
  - intros v it0 e o w w'. unfold fj_array_iter_new.
    destruct (impl v) as [q|] eqn:Hq; cbn [is_nullptr is_null_out orb].
    2:{ unfold ret. intros [= <- <- <-]. right.
        split; [discriminate|]. split; [reflexivity|].
        split; [reflexivity|]. left. split; reflexivity. }
    unfold bind at 1. unfold get_element. rewrite Hq.
    destruct (load_element q w) as [el|] eqn:Hel; [|discriminate].
    destruct (is_error (result_error (get_array el))) eqn:Ea.
    { unfold ret. intros [= <- <- <-]. right.
      split; [apply is_error_map_error, Ea|]. split; [reflexivity|].
      split; [reflexivity|]. right. left. exists q, el.
      repeat split; first [assumption | reflexivity]. }
    apply is_error_false in Ea.
    unfold try_catch, new_object, bind, operator_new, ret.
    destruct (alloc_script w) as [|[|] s] eqn:Es; simpl;
      intros [= <- <- <-].
    + left. split; [reflexivity|]. eexists _, q, el.
      split; [reflexivity|]. repeat split; try assumption.
      apply not_elem_of_dom, is_fresh.
    + left. split; [reflexivity|]. eexists _, q, el.
      split; [reflexivity|]. repeat split; try assumption.
      apply not_elem_of_dom, is_fresh.
    + right. split; [discriminate|]. split; [reflexivity|].
      split; [reflexivity|]. right. right. split; reflexivity.
  - intros v it0 e o w w'. unfold fj_object_iter_new.
    destruct (impl v) as [q|] eqn:Hq; cbn [is_nullptr is_null_out orb].
    2:{ unfold ret. intros [= <- <- <-]. right.
        split; [discriminate|]. split; [reflexivity|].
        split; [reflexivity|]. left. split; reflexivity. }
    unfold bind at 1. unfold get_element. rewrite Hq.
    destruct (load_element q w) as [el|] eqn:Hel; [|discriminate].
    destruct (is_error (result_error (get_object el))) eqn:Ea.
    { unfold ret. intros [= <- <- <-]. right.
      split; [apply is_error_map_error, Ea|]. split; [reflexivity|].
      split; [reflexivity|]. right. left. exists q, el.
      repeat split; first [assumption | reflexivity]. }
    apply is_error_false in Ea.
    unfold try_catch, new_object, bind, operator_new, ret.
    destruct (alloc_script w) as [|[|] s] eqn:Es; simpl;
      intros [= <- <- <-].
    + left. split; [reflexivity|]. eexists _, q, el.
      split; [reflexivity|]. repeat split; try assumption.
      apply not_elem_of_dom, is_fresh.
    + left. split; [reflexivity|]. eexists _, q, el.
      split; [reflexivity|]. repeat split; try assumption.
      apply not_elem_of_dom, is_fresh.
    + right. split; [discriminate|]. split; [reflexivity|].
      split; [reflexivity|]. right. right. split; reflexivity.
Qed.

(** X17. Stepping an iterator touches that iterator and the pool of its
    [next] function, nothing else: documents, parsers, the iterators of the
    other kind, every other iterator of its own kind and the other four
    pools are as before. *)
Theorem iter_next_frame :
  (forall it out r (w w' : world),
      fj_array_iter_next it out w = Returns r w' ->
      documents w' = documents w /\ parsers w' = parsers w
      /\ object_iters w' = object_iters w
      /\ (forall b, it <> Some b -> array_iters w' !! b = array_iters w !! b)
      /\ (forall p, p <> in_array_iter_next ->
                    pool p (tls w') = pool p (tls w)))
  /\ (forall it key key_len val r (w w' : world),
        fj_object_iter_next it key key_len val w = Returns r w' ->
        documents w' = documents w /\ parsers w' = parsers w
        /\ array_iters w' = array_iters w
        /\ (forall b, it <> Some b ->
                      object_iters w' !! b = object_iters w !! b)
        /\ (forall p, p <> in_object_iter_next ->
                      pool p (tls w') = pool p (tls w))).
Proof.
  split.
  - intros it out r w w' Hrun. unfold_api Hrun.
    repeat (first [settle Hrun | branch Hrun]);
      simpl; repeat split; try reflexivity;
      try (intros b Hb; apply lookup_insert_ne; congruence);
      intros pl Hpl; destruct pl; try reflexivity; congruence.
  - intros it key key_len val r w w' Hrun. unfold_api Hrun.
    repeat (first [settle Hrun | branch Hrun]);
      simpl; repeat split; try reflexivity;
      try (intros b Hb; apply lookup_insert_ne; congruence);
      intros pl Hpl; destruct pl; try reflexivity; congruence.
Qed.

(** ** Wrap-around *)

Lemma run_cursor (p : pool_id) : forall cs rs (w w2 : world),
  (stored_idx (pool p (tls w)) < 256)%N ->
  run cs w = Returns rs w2 ->
  stored_idx (pool p (tls w2))
  = ((stored_idx (pool p (tls w)) + N.of_nat (derivations_into p cs rs))
       mod 256)%N.
Proof.
  induction cs as [|c cs IH]; intros rs w w2 Hlt Hrun.
  - simpl in Hrun. unfold ret in Hrun. injection Hrun as <- <-. simpl.
    rewrite N.add_0_r. symmetry. apply N.mod_small, Hlt.
  - apply run_cons_returns in Hrun as (r & w1 & rs' & Hc & Hcs & ->).
    simpl.
    destruct (exec_tls c w r w1 Hc) as [[Hnone Heq] | (p' & e & _ & Hd & Heq)].
    + rewrite Hnone. rewrite (IH rs' w1 w2); [rewrite Heq; reflexivity | | exact Hcs].
      rewrite Heq. exact Hlt.
    + rewrite Hd. destruct (pool_id_eqb p p') eqn:E.
      * apply pool_id_eqb_eq in E. subst p'.
        assert (Hidx : stored_idx (pool p (tls w1))
                       = ((stored_idx (pool p (tls w)) + 1) mod 256)%N).
        { rewrite Heq. unfold pool_write. rewrite pool_set_pool_eq.
          reflexivity. }
        rewrite (IH rs' w1 w2); [| | exact Hcs].
        -- rewrite Hidx, N.Div0.add_mod_idemp_l. f_equal. lia.
        -- rewrite Hidx. apply N.mod_upper_bound. lia.
      * assert (Hne : p' <> p) by (intros ->; destruct p; discriminate).
        assert (Hidx : pool p (tls w1) = pool p (tls w)).
        { rewrite Heq. unfold pool_write. apply pool_set_pool_ne, Hne. }
        rewrite (IH rs' w1 w2); [rewrite Hidx; reflexivity | | exact Hcs].
        rewrite Hidx. exact Hlt.
Qed.

(** X14. The rings wrap around.  When 255 further derivations have gone
    into the ring of a function since it handed back a cell, the next
    derivation by that function hands back the very same cell: the old
    value and the new one are then the same reference, and the old one reads
    as the new element. *)
Theorem slot_reused_after_256 (c c2 : api_call) (w w1 w2 w3 : world) r r2
    cs rs p q q2 :
  exec c w = Returns r w1 ->
  call_pool c = Some p -> derived_ref c r = Some q ->
  run cs w1 = Returns rs w2 ->
  derivations_into p cs rs = 255%nat ->
  exec c2 w2 = Returns r2 w3 ->
  call_pool c2 = Some p -> derived_ref c2 r2 = Some q2 ->
  q2 = q.
Proof.
  intros Hc Hp Hq Hrun Hcount Hc2 Hp2 Hq2.
  destruct (exec_tls c w r w1 Hc) as [[Hnone _] | (p' & e & Hp' & Hd & Heq)];
    [congruence|].
  assert (p' = p) by congruence. subst p'.
  rewrite Hd in Hq. injection Hq as <-.
  set (i := ((stored_idx (pool p (tls w)) + 1) mod 256)%N).
  assert (Hi : (i < 256)%N) by (apply N.mod_upper_bound; lia).
  assert (Hidx : stored_idx (pool p (tls w1)) = i).
  { rewrite Heq. unfold pool_write. rewrite pool_set_pool_eq. reflexivity. }
  pose proof (run_cursor p cs rs w1 w2) as Hcur.
  rewrite Hidx, Hcount in Hcur. specialize (Hcur Hi Hrun).
  destruct (exec_tls c2 w2 r2 w3 Hc2)
    as [[Hnone _] | (p' & e2 & Hp2' & Hd2 & _)]; [congruence|].
  assert (p' = p) by congruence. subst p'.
  rewrite Hd2 in Hq2. injection Hq2 as <-.
  f_equal. rewrite Hcur, N.Div0.add_mod_idemp_l.
  replace (i + N.of_nat 255 + 1)%N with (i + 1 * 256)%N by lia.
  rewrite N.Div0.mod_add. apply N.mod_small, Hi.
Qed.

(** ** Error messages, continued *)

(** X15. The messages tell the kinds apart and the kinds tell the listed
    engine codes apart: two engine codes whose public kinds have the same
    message are the same code, unless both are codes [map_error] does not
    list. *)
Theorem messages_identify_codes (e1 e2 : error_code) :
  fj_error_message (fj_error_value (map_error e1))
  = fj_error_message (fj_error_value (map_error e2)) ->
  e1 = e2 \/ (exists n1 n2, e1 = UNLISTED_CODE n1 /\ e2 = UNLISTED_CODE n2).
Proof.
  destruct e1, e2; vm_compute; intros Hm;
    first [ left; reflexivity | discriminate Hm | right; eauto ].
Qed.

(** ** Parsers and documents come and go *)

(** X16. [fj_parser_new] returns null exactly when the allocation fails,
    and then no parser has been made; otherwise it returns the address of a
    new parser, which no live parser had, configured with the given
    capacity, or with the engine's default when the capacity is 0. *)
Theorem parser_new_cases (capacity : N) (p : fj_parser) (w w' : world) :
  fj_parser_new capacity w = Returns p w' ->
  (p = None /\ head (alloc_script w) = Some false
   /\ parsers w' = parsers w)
  \/ (exists a,
         p = Some a /\ head (alloc_script w) <> Some false
         /\ parsers w !! a = None
         /\ parsers w'
            = <[a := {| parser :=
                          {| max_capacity :=
                               if (capacity =? 0)%N
                               then SIMDJSON_MAXSIZE_BYTES
                               else capacity |} |}]> (parsers w)).
Proof.
  unfold fj_parser_new, try_catch, new_object, bind, operator_new, ret.
  assert (Hctor : fj_parser_s_ctor capacity
                  = {| parser :=
                         {| max_capacity :=
                              if (capacity =? 0)%N
                              then SIMDJSON_MAXSIZE_BYTES
                              else capacity |} |}).
  { unfold fj_parser_s_ctor. destruct capacity; reflexivity. }
  rewrite Hctor.
  destruct (alloc_script w) as [|[|] s] eqn:Es; simpl; intros [= <- <-].
  - right. eexists. split; [reflexivity|]. split; [discriminate|].
    split; [apply not_elem_of_dom, is_fresh | reflexivity].
  - right. eexists. split; [reflexivity|]. split; [discriminate|].
    split; [apply not_elem_of_dom, is_fresh | reflexivity].
  - left. repeat split; reflexivity.
Qed.

(** X18. Freeing the document a successful parse has just made takes the
    set of documents back to what it was before the parse; the handle then
    names no document.  Freeing a null handle does nothing. *)
Theorem parse_then_free (p : fj_parser) (json : option string) (len : N)
    d0 a (w w' : world) :
  fj_parser_parse p json len (out_cell d0) w
  = Returns (FJ_SUCCESS, out_cell (Some a)) w' ->
  (exists w'',
      fj_document_free (Some a) w' = Returns tt w''
      /\ documents w'' = documents w
      /\ documents w'' !! a = None)
  /\ fj_document_free None w' = Returns tt w'.
Proof.
  intros Hrun. split; [|reflexivity].
  destruct p as [pa|]; [|discriminate Hrun].
  destruct json as [buf|]; [|discriminate Hrun].
  destruct (parsers w !! pa) as [ps|] eqn:Hps.
  2:{ unfold fj_parser_parse, try_catch, bind, load in Hrun.
      simpl in Hrun. rewrite Hps in Hrun. discriminate. }
  destruct (fj_parser_parse_cases pa ps buf len d0 w Hps)
    as [(Herr & Hrun') | [(_ & s & _ & Hrun') | (_ & w1 & Hrun' & Hd & _)]];
    rewrite Hrun' in Hrun; try discriminate Hrun.
  injection Hrun as <- <-.
  unfold fj_document_free, delete_object. rewrite Hd, lookup_insert_eq.
  eexists. split; [reflexivity|]. simpl.
  rewrite delete_insert_id by apply fresh_document_free.
  split; [reflexivity | apply fresh_document_free].
Qed.

End ApiFacts.

(** * The interface at work on the sample engine *)

Lemma run_reachable {E : Engine} (cs : list api_call) :
  forall (w : world) rs w',
    reachable w -> run cs w = Returns rs w' -> reachable w'.
Proof.
  induction cs as [|c cs IH]; intros w rs w' Hw Hrun.
  - simpl in Hrun. unfold ret in Hrun. injection Hrun as _ <-. exact Hw.
  - apply run_cons_returns in Hrun as (r & w1 & rs' & Hc & Hcs & _).
    apply (IH w1 rs' w'); [|exact Hcs].
    exact (reachable_step w c r w1 Hw Hc).
Qed.

Lemma world_after_reachable {E : Engine} (cs : list api_call) (w : world) :
  reachable w -> reachable (world_after cs w).
Proof.
  intros Hw. unfold world_after.
  destruct (run cs w) as [rs w'| |] eqn:Hrun; try exact Hw.
  exact (run_reachable cs w rs w' Hw Hrun).
Qed.

Lemma sample_world_reachable : reachable sample_world.
Proof. apply world_after_reachable, reachable_initial. Qed.

Lemma array_world_reachable : reachable array_world.
Proof. apply world_after_reachable, reachable_initial. Qed.

(** The scenario of the sample text: the root is an object of size 2, ["a"]
    is the integer 1, ["b"] an array of size 3, ["c"] is missing. *)
Example sample_scenario :
  returned
    (run (H := sample_engine)
       [ Value_type first_root;
         Value_object_size first_root (out_cell 0%N);
         Value_get_field first_root (Some "a"%string) (out_cell null_value);
         Value_get_int64
           {| impl := Some (slot_of in_get_field 1); doc := Some 1%positive |}
           (out_cell 0);
         Value_get_field first_root (Some "b"%string) (out_cell null_value);
         Value_array_size
           {| impl := Some (slot_of in_get_field 2); doc := Some 1%positive |}
           (out_cell 0%N);
         Value_get_field first_root (Some "c"%string) (out_cell null_value);
         Value_has_field first_root (Some "c"%string) ]
       sample_world)
  = Some
      [ R_type FJ_TYPE_OBJECT;
        R_error_size FJ_SUCCESS (out_cell 2%N);
        R_error_value FJ_SUCCESS
          (out_cell {| impl := Some (slot_of in_get_field 1);
                       doc := Some 1%positive |});
        R_error_number FJ_SUCCESS (out_cell 1);
        R_error_value FJ_SUCCESS
          (out_cell {| impl := Some (slot_of in_get_field 2);
                       doc := Some 1%positive |});
        R_error_size FJ_SUCCESS (out_cell 3%N);
        R_error_value FJ_ERROR_NO_SUCH_FIELD (out_cell null_value);
        R_bool false ].
Proof. vm_compute. reflexivity. Qed.

Example empty_input_rejected :
  returned
    (fj_parser_parse (H := sample_engine) (Some 1%positive)
       (Some EmptyString) 0 (out_cell (Some 5%positive)) parser_world)
  = Some (FJ_ERROR_EMPTY, out_cell None).
Proof. vm_compute. reflexivity. Qed.

(** ** Witnesses and counterexamples *)

(** C1 as stated fails.  From [sample_world], two field lookups hand back
    cells 1 and 2 of the ring of [fj_value_get_field]; the index lookup that
    follows does not take cell 3 of that ring but cell 1 of the ring of
    [fj_value_get_index]: the two functions share neither cells nor
    cursor. *)
Lemma derivations_use_separate_rings :
  exists rs q2 q3,
    returned (run three_derivations sample_world) = Some rs
    /\ derived_refs three_derivations rs
       = [Some (slot_of in_get_field 1); Some q2; Some q3]
    /\ q2 = slot_of in_get_field 2
    /\ ~ (exists p i, q2 = slot_of p i /\ q3 = slot_of p ((i + 1) mod 256)%N)
    /\ stored_idx
         (pool in_get_field (tls (world_after three_derivations sample_world)))
       = 2%N.
Proof.
  eexists _, _, _. split; [vm_compute; reflexivity|].
  split; [reflexivity|]. split; [reflexivity|]. split; [|reflexivity].
  intros (p & i & [= <- <-] & [=]).
Qed.

Lemma slot_pool_per_function_witness :
  exists p i e,
    call_pool get_field_b = Some p
    /\ slot_of in_get_field 1 = slot_of p i
    /\ i = ((stored_idx (pool p (tls sample_world)) + 1) mod 256)%N
    /\ stored_idx (pool p (tls (world_after [get_field_b] sample_world))) = i
    /\ load_element (slot_of in_get_field 1)
         (world_after [get_field_b] sample_world) = Some e
    /\ (forall p', p' <> p ->
          pool p' (tls (world_after [get_field_b] sample_world))
          = pool p' (tls sample_world))
    /\ (forall cs rs w'',
           run cs (world_after [get_field_b] sample_world) = Returns rs w'' ->
           (derivations_into p cs rs < 256)%nat ->
           load_element (slot_of in_get_field 1) w'' = Some e).
Proof.
  apply (slot_pool_per_function get_field_b sample_world
           (world_after [get_field_b] sample_world)
           (R_error_value FJ_SUCCESS (out_cell field_b))
           (slot_of in_get_field 1)).
  - exact sample_world_reachable.
  - reflexivity.
  - reflexivity.
Defined.

(** C2 fails on the iterators.  The first [fj_array_iter_next] on an iterator
    over the root of document 1, and the first [fj_object_iter_next]
    likewise, hand back a value whose [doc] is null, although the element
    belongs to document 1 and the value the iterator was made from carried
    that handle. *)
Theorem iterator_value_has_no_document :
  doc first_root = Some 1%positive
  /\ returned
       (fj_array_iter_next (H := sample_engine) (Some 1%positive)
          (out_cell null_value) array_iter_world)
     = Some (true, out_cell {| impl := Some (slot_of in_array_iter_next 1);
                               doc := None |})
  /\ next_val
     <$> returned
           (fj_object_iter_next (H := sample_engine) (Some 1%positive)
              (out_cell EmptyString) (out_cell 0%N) (out_cell null_value)
              object_iter_world)
     = Some (out_cell {| impl := Some (slot_of in_object_iter_next 1);
                         doc := None |}).
Proof. repeat split; vm_compute; reflexivity. Qed.

(** C3 as stated fails.  With a null parser the call returns an error and
    the handle behind [doc] is what it was, here the non-null 5. *)
Lemma parse_null_parser_keeps_handle :
  ~ (exists e d w',
        fj_parser_parse (H := sample_engine) None (Some sample_text)
          (text_len sample_text) (out_cell (Some 5%positive)) parser_world
        = Returns (e, out_cell d) w'
        /\ ((e = FJ_SUCCESS /\ d <> None) \/ (e <> FJ_SUCCESS /\ d = None))).
Proof.
  intros (e & d & w' & Hrun & Hcases).
  change (Returns (FJ_ERROR_UNINITIALIZED, out_cell (Some 5%positive))
            parser_world = Returns (e, out_cell d) w') in Hrun.
  injection Hrun as <- <- _.
  destruct Hcases as [[? _] | [_ ?]]; discriminate.
Qed.

Lemma parse_atomic_witness :
  let result :=
    @parser_parse sample_engine {| max_capacity := 4294967295 |} sample_text
      (text_len sample_text) in
  fj_parser_parse (H := sample_engine) None (Some sample_text)
    (text_len sample_text) (out_cell (Some 5%positive)) parser_world
  = Returns (FJ_ERROR_UNINITIALIZED, out_cell (Some 5%positive)) parser_world
  /\ ((exists a w',
          fj_parser_parse (H := sample_engine) (Some 1%positive)
            (Some sample_text) (text_len sample_text)
            (out_cell (Some 5%positive)) parser_world
          = Returns (FJ_SUCCESS, out_cell (Some a)) w'
          /\ result_error result = SUCCESS
          /\ documents parser_world !! a = None
          /\ documents w'
             = <[a := @Build_fj_document_s sample_engine
                        (result_value result) FJ_SUCCESS]>
                 (documents parser_world))
      \/ (exists e w',
             fj_parser_parse (H := sample_engine) (Some 1%positive)
               (Some sample_text) (text_len sample_text)
               (out_cell (Some 5%positive)) parser_world
             = Returns (e, out_cell None) w'
             /\ e <> FJ_SUCCESS
             /\ documents w' = documents parser_world)).
Proof.
  intros result. split.
  - apply (proj1 (parse_atomic None (Some sample_text) (text_len sample_text)
                    (Some 5%positive) parser_world)).
    left. reflexivity.
  - exact (proj2 (parse_atomic (Some 1%positive) (Some sample_text)
                    (text_len sample_text) (Some 5%positive) parser_world)
             1%positive (fj_parser_s_ctor 0) sample_text
             eq_refl eq_refl eq_refl).
Defined.

Lemma iterator_yields_each_child_once_witness :
  (exists w1,
      array_iter_drain (H := sample_engine) (3 + 2) (Some 1%positive)
        array_iter_world
      = Returns
          [ (true, Some (J_int64 10)); (true, Some (J_int64 20));
            (true, Some (J_int64 30)); (false, None); (false, None) ] w1)
  /\ (exists w1,
         object_iter_drain (H := sample_engine) (2 + 1) (Some 1%positive)
           object_iter_world
         = Returns
             [ (true, Some ("a"%string, 1%N, J_int64 1));
               (true, Some ("b"%string, 1%N,
                            J_array [J_bool true; J_null; J_string "x"]));
               (false, None) ] w1).
Proof.
  split.
  - destruct (proj1 (@iterator_yields_each_child_once sample_engine)
                first_root
                (root_of 1) (J_array [J_int64 10; J_int64 20; J_int64 30])
                [J_int64 10; J_int64 20; J_int64 30] None (Some 1%positive)
                0%N array_world array_iter_world array_world_reachable
                eq_refl eq_refl eq_refl eq_refl) as [_ Hdrain].
    exact (Hdrain 2%nat).
  - destruct (proj1 (proj2 (@iterator_yields_each_child_once sample_engine))
                first_root
                (root_of 1) sample_tree
                [ ("a"%string, J_int64 1);
                  ("b"%string, J_array [J_bool true; J_null; J_string "x"]) ]
                None (Some 1%positive)
                0%N sample_world object_iter_world sample_world_reachable
                eq_refl eq_refl eq_refl eq_refl) as [_ Hdrain].
    exact (Hdrain 1%nat).
Defined.

Lemma has_field_iff_get_field_witness :
  fj_value_get_field (H := sample_engine) first_root (Some "c"%string)
    (out_cell null_value) sample_world
  = Returns (FJ_ERROR_NO_SUCH_FIELD, out_cell null_value) sample_world
  /\ fj_value_has_field (H := sample_engine) first_root (Some "c"%string)
       sample_world
     = Returns false sample_world.
Proof.
  apply (proj2 (@has_field_iff_get_field sample_engine) first_root (root_of 1)
           sample_tree
           [ ("a"%string, J_int64 1);
             ("b"%string, J_array [J_bool true; J_null; J_string "x"]) ]
           "c"%string null_value sample_world);
    try reflexivity.
  simpl. intros Hin.
  apply elem_of_cons in Hin as [Hin|Hin]; [discriminate|].
  apply elem_of_cons in Hin as [Hin|Hin]; [discriminate|].
  apply elem_of_nil in Hin. exact Hin.
Defined.

Lemma null_handle_uninitialized_witness :
  fj_parser_parse (H := sample_engine) None (Some sample_text)
    (text_len sample_text) (out_cell None) parser_world
  = Returns (FJ_ERROR_UNINITIALIZED, out_cell None) parser_world
  /\ fj_value_get_bool (H := sample_engine) null_value (out_cell true)
       sample_world
     = Returns (FJ_ERROR_UNINITIALIZED, out_cell true) sample_world
  /\ fj_value_get_field (H := sample_engine) first_root (Some "a"%string)
       null_out sample_world
     = Returns (FJ_ERROR_UNINITIALIZED, null_out) sample_world
  /\ fj_array_iter_new (H := sample_engine) null_value (out_cell None)
       sample_world
     = Returns (FJ_ERROR_UNINITIALIZED, out_cell None) sample_world
  /\ fj_minify (H := sample_engine) None 3 (out_cell 7%N)
     = (FJ_ERROR_UNINITIALIZED, None, out_cell 7%N).
Proof.
  pose proof (@null_handle_uninitialized sample_engine parser_world)
    as (Hparse & _).
  pose proof (@null_handle_uninitialized sample_engine sample_world)
    as (_ & _ & Hbool & _ & _ & _ & _ & Hfield & _ & _ & _ & _ & Hiter & _
        & Hminify & _).
  split; [apply Hparse; left; reflexivity|].
  split; [apply Hbool; left; reflexivity|].
  split; [apply Hfield; right; right; reflexivity|].
  split; [apply Hiter; left; reflexivity|].
  apply Hminify; left; reflexivity.
Defined.

Lemma document_error_success_witness :
  error (@Build_fj_document_s sample_engine sample_tree FJ_SUCCESS)
  = FJ_SUCCESS
  /\ fj_document_error (Some 1%positive) sample_world
     = Returns FJ_SUCCESS sample_world.
Proof.
  apply (document_error_success sample_world 1%positive).
  - exact sample_world_reachable.
  - reflexivity.
Defined.

Lemma fj_value_type_null_witness :
  fj_value_type (H := sample_engine) null_value null_world
  = Returns FJ_TYPE_NULL null_world
  /\ fj_value_type (H := sample_engine) first_root sample_world
     = Returns FJ_TYPE_OBJECT sample_world
  /\ map_type (UNLISTED_TYPE 63) = FJ_TYPE_NULL
  /\ fj_value_type (H := alien_engine) first_root alien_null_world
     = Returns FJ_TYPE_NULL alien_null_world
  /\ fj_value_type (H := sample_engine) first_root null_world
     = fj_value_type (H := sample_engine) null_value null_world.
Proof.
  pose proof (@fj_value_type_null sample_engine)
    as (Hnull & Hlive & Hunlisted & _ & Hsame).
  pose proof (@fj_value_type_null alien_engine) as (_ & _ & _ & Halien & _).
  split; [apply Hnull; reflexivity|].
  split; [apply (Hlive first_root (root_of 1) sample_tree); reflexivity|].
  split.
  { apply Hunlisted. intros Hin.
    repeat (apply elem_of_cons in Hin as [Hin|Hin]; [discriminate|]).
    apply elem_of_nil in Hin. exact Hin. }
  split.
  { apply (Halien first_root (root_of 1) J_null alien_null_world 63);
      reflexivity. }
  apply (Hsame first_root null_value (root_of 1) J_null); reflexivity.
Defined.

(** ** Witnesses of the further properties *)

Lemma run_world_after {E : Engine} (cs : list api_call) (w : world) :
  is_Some (returned (run cs w)) ->
  run cs w = Returns (results_after cs w) (world_after cs w).
Proof.
  unfold results_after, world_after.
  destruct (run cs w); [reflexivity | |]; intros [x [=]].
Qed.

Lemma get_index_bounds_witness :
  (exists x q' w',
      [J_int64 10; J_int64 20; J_int64 30] !! N.to_nat 2 = Some x
      /\ fj_value_get_index (H := sample_engine) first_root 2
           (out_cell null_value) array_world
         = Returns (FJ_SUCCESS,
                    out_cell {| impl := Some q'; doc := doc first_root |}) w'
      /\ load_element q' w' = Some x)
  /\ fj_value_get_index (H := sample_engine) first_root 3
       (out_cell null_value) array_world
     = Returns (FJ_ERROR_INDEX_OUT_OF_BOUNDS, out_cell null_value) array_world.
Proof.
  split.
  - apply (proj1 (@get_index_bounds sample_engine first_root (root_of 1)
                    (J_array [J_int64 10; J_int64 20; J_int64 30])
                    [J_int64 10; J_int64 20; J_int64 30] 2 null_value
                    array_world array_world_reachable
                    eq_refl eq_refl eq_refl)).
    simpl. lia.
  - apply (proj2 (@get_index_bounds sample_engine first_root (root_of 1)
                    (J_array [J_int64 10; J_int64 20; J_int64 30])
                    [J_int64 10; J_int64 20; J_int64 30] 3 null_value
                    array_world array_world_reachable
                    eq_refl eq_refl eq_refl)).
    simpl. lia.
Defined.

Lemma array_size_bounds_index_witness :
  (exists out w',
      fj_value_get_index (H := sample_engine) first_root 1
        (out_cell null_value) array_world
      = Returns (FJ_SUCCESS, out) w')
  <-> (1 < 3)%N.
Proof.
  exact (@array_size_bounds_index sample_engine first_root 0%N 3%N null_value
           1%N array_world array_world eq_refl).
Defined.

Lemma get_field_present_witness :
  exists x q' w',
    (c_str "b", x) ∈ [ ("a"%string, J_int64 1);
                       ("b"%string,
                        J_array [J_bool true; J_null; J_string "x"]) ]
    /\ fj_value_get_field (H := sample_engine) first_root (Some "b"%string)
         (out_cell null_value) sample_world
       = Returns (FJ_SUCCESS,
                  out_cell {| impl := Some q'; doc := doc first_root |}) w'
    /\ load_element q' w' = Some x
    /\ fj_value_has_field (H := sample_engine) first_root (Some "b"%string)
         sample_world
       = Returns true sample_world.
Proof.
  apply (@get_field_present sample_engine first_root (root_of 1) sample_tree
           [ ("a"%string, J_int64 1);
             ("b"%string, J_array [J_bool true; J_null; J_string "x"]) ]
           "b"%string null_value sample_world sample_world_reachable
           eq_refl eq_refl eq_refl).
  simpl. apply elem_of_cons. right. apply elem_of_cons. left. reflexivity.
Defined.

Lemma get_field_len_strlen_witness :
  exists o2 w2,
    fj_value_get_field_len (H := sample_engine) first_root (Some "a"%string)
      (N.of_nat (String.length (c_str "a"))) (out_cell null_value)
      sample_world
    = Returns (FJ_SUCCESS, o2) w2
    /\ pointee_of o2 w2 = pointee_of (out_cell field_a) field_a_world
    /\ (FJ_SUCCESS = FJ_SUCCESS ->
        exists i1 i2 d,
          out_cell field_a
          = out_cell {| impl := Some (slot_of in_get_field i1); doc := d |}
          /\ o2 = out_cell {| impl := Some (slot_of in_get_field_len i2);
                              doc := d |}
          /\ is_Some (pointee_of (out_cell field_a) field_a_world)).
Proof.
  exact (@get_field_len_strlen sample_engine first_root "a"%string null_value
           sample_world FJ_SUCCESS (out_cell field_a) field_a_world
           sample_world_reachable eq_refl).
Defined.

Lemma iterated_key_found_witness :
  field_item (H := sample_engine) ("b"%string, J_int64 7)
  = (true, Some ("b"%string, 1%N, J_int64 7))
  /\ exists x' q' w',
      ("b"%string, x')
      ∈ [ ("a"%string, J_int64 1);
          ("b"%string, J_array [J_bool true; J_null; J_string "x"]) ]
      /\ fj_value_get_field_len (H := sample_engine) first_root
           (Some "b"%string) 1 (out_cell null_value) sample_world
         = Returns (FJ_SUCCESS,
                    out_cell {| impl := Some q'; doc := doc first_root |}) w'
      /\ load_element q' w' = Some x'.
Proof.
  split; [reflexivity|].
  apply (@iterated_key_found sample_engine first_root (root_of 1) sample_tree
           [ ("a"%string, J_int64 1);
             ("b"%string, J_array [J_bool true; J_null; J_string "x"]) ]
           "b"%string (J_array [J_bool true; J_null; J_string "x"])
           null_value sample_world sample_world_reachable
           eq_refl eq_refl eq_refl).
  apply elem_of_cons. right. apply elem_of_cons. left. reflexivity.
Defined.

Lemma failure_writes_nothing_witness :
  (out_cell null_value = out_cell null_value /\ array_world = array_world)
  /\ (out_cell true = out_cell true /\ sample_world = sample_world).
Proof.
  pose proof (@failure_writes_nothing sample_engine array_world)
    as (_ & _ & _ & _ & _ & _ & _ & Hindex & _).
  pose proof (@failure_writes_nothing sample_engine sample_world)
    as (Hbool & _).
  split.
  - apply (Hindex first_root 7%N (out_cell null_value)
             FJ_ERROR_INDEX_OUT_OF_BOUNDS (out_cell null_value) array_world);
      [reflexivity | discriminate].
  - apply (Hbool first_root (out_cell true) FJ_ERROR_INCORRECT_TYPE
             (out_cell true) sample_world);
      [reflexivity | discriminate].
Defined.

Lemma read_only_keeps_state_witness : sample_world = sample_world.
Proof.
  apply (@read_only_keeps_state sample_engine (Value_type first_root)
           sample_world sample_world (R_type FJ_TYPE_OBJECT));
    reflexivity.
Defined.

Lemma is_number_iff_type_witness :
  true = true <-> FJ_TYPE_INT64 ∈ [FJ_TYPE_INT64; FJ_TYPE_UINT64; FJ_TYPE_DOUBLE].
Proof.
  apply (@is_number_iff_type sample_engine field_a field_a_world
           field_a_world field_a_world true FJ_TYPE_INT64);
    reflexivity.
Defined.

Lemma parse_then_root_witness :
  exists pa ps buf a,
    Some 1%positive = Some pa
    /\ parsers parser_world !! pa = Some ps
    /\ Some sample_text = Some buf
    /\ Some 1%positive = Some a
    /\ doc (fj_document_root (Some 1%positive)) = Some a
    /\ pointee (E := sample_engine) (fj_document_root (Some 1%positive))
         sample_world
       = Some (result_value
                 (@parser_parse sample_engine (parser ps) buf (text_len sample_text)))
    /\ fj_value_type (H := sample_engine) (fj_document_root (Some 1%positive)) sample_world
       = Returns
           (map_type
              (@el_type sample_engine
                 (result_value
                    (@parser_parse sample_engine (parser ps) buf (text_len sample_text)))))
           sample_world.
Proof.
  exact (@parse_then_root sample_engine (Some 1%positive) (Some sample_text)
           (text_len sample_text) None (Some 1%positive) parser_world
           sample_world eq_refl).
Defined.

Lemma validate_agrees_with_parse_witness :
  FJ_SUCCESS
  = fj_validate (H := sample_engine) (Some sample_text) (text_len sample_text)
  \/ (fj_validate (H := sample_engine) (Some sample_text)
        (text_len sample_text) = FJ_SUCCESS
      /\ FJ_SUCCESS = FJ_ERROR_UNEXPECTED_ERROR
      /\ out_cell (Some 1%positive) = out_cell None
      /\ head (alloc_script parser_world) = Some false).
Proof.
  exact (@validate_agrees_with_parse sample_engine 1%positive
           (fj_parser_s_ctor 0) sample_text (text_len sample_text) None
           FJ_SUCCESS (out_cell (Some 1%positive)) parser_world sample_world
           eq_refl eq_refl eq_refl).
Defined.

Lemma active_implementation_stable_witness :
  exists w',
    fj_active_implementation (H := sample_engine) sample_world
    = Returns "fallback"%string w'
    /\ cached_impl_name w' = Some "fallback"%string
    /\ fj_active_implementation w' = Returns "fallback"%string w'.
Proof.
  exact (@active_implementation_stable sample_engine sample_world
           sample_world_reachable).
Defined.

Lemma next_null_out_consumes_nothing_witness :
  (fj_array_iter_next (H := sample_engine) (Some 1%positive) null_out
     array_iter_world
   = Returns (false, null_out) array_iter_world
   /\ exists q w',
       fj_array_iter_next (H := sample_engine) (Some 1%positive)
         (out_cell null_value) array_iter_world
       = Returns (true, out_cell {| impl := Some q; doc := None |}) w')
  /\ (fj_object_iter_next (H := sample_engine) (Some 1%positive)
        (out_cell EmptyString) null_out (out_cell null_value)
        object_iter_world
      = Returns {| next_more := false; next_key := out_cell EmptyString;
                   next_key_len := null_out;
                   next_val := out_cell null_value |} object_iter_world
      /\ exists r w',
          fj_object_iter_next (H := sample_engine) (Some 1%positive)
            (out_cell EmptyString) (out_cell 0%N) (out_cell null_value)
            object_iter_world
          = Returns r w'
          /\ next_more r = true /\ next_key r = out_cell "a"%string).
Proof.
  split.
  - exact (proj1 (@next_null_out_consumes_nothing sample_engine) 1%positive
             [J_int64 10; J_int64 20; J_int64 30] 0%nat (J_int64 10)
             null_value array_iter_world eq_refl eq_refl).
  - exact (proj2 (@next_null_out_consumes_nothing sample_engine) 1%positive
             [ ("a"%string, J_int64 1);
               ("b"%string, J_array [J_bool true; J_null; J_string "x"]) ]
             0%nat ("a"%string, J_int64 1) (out_cell EmptyString) null_out
             (out_cell null_value) EmptyString 0%N null_value
             object_iter_world eq_refl eq_refl eq_refl).
Defined.

Lemma iter_new_all_or_nothing_witness :
  (FJ_SUCCESS = FJ_SUCCESS
   /\ exists a q el,
       out_cell (Some 1%positive) = out_cell (Some a)
       /\ impl first_root = Some q
       /\ load_element (H := sample_engine) q array_world = Some el
       /\ result_error (get_array el) = SUCCESS
       /\ array_iters array_world !! a = None
       /\ array_iters array_iter_world
          = <[a := {| array := result_value (get_array el);
                      a_current := 0;
                      a_end := length (result_value (get_array el)) |}]>
              (array_iters array_world))
  \/ (FJ_SUCCESS <> FJ_SUCCESS
      /\ out_cell (Some 1%positive) = out_cell None
      /\ array_iters array_iter_world = array_iters array_world
      /\ (FJ_SUCCESS = FJ_ERROR_UNINITIALIZED /\ impl first_root = None
          \/ (exists q el,
                 impl first_root = Some q
                 /\ load_element (H := sample_engine) q array_world = Some el
                 /\ is_error (result_error (get_array el)) = true
                 /\ FJ_SUCCESS = map_error (result_error (get_array el)))
          \/ (FJ_SUCCESS = FJ_ERROR_MEMALLOC
              /\ head (alloc_script array_world) = Some false))).
Proof.
  exact (proj1 (@iter_new_all_or_nothing sample_engine) first_root None
           FJ_SUCCESS (out_cell (Some 1%positive)) array_world
           array_iter_world eq_refl).
Defined.

Lemma iter_next_frame_witness :
  documents (world_after [Array_iter_next (Some 1%positive)
                            (out_cell null_value)] array_iter_world)
  = documents array_iter_world
  /\ parsers (world_after [Array_iter_next (Some 1%positive)
                             (out_cell null_value)] array_iter_world)
     = parsers array_iter_world
  /\ object_iters (world_after [Array_iter_next (Some 1%positive)
                                  (out_cell null_value)] array_iter_world)
     = object_iters array_iter_world
  /\ (forall b,
         Some 1%positive <> Some b ->
         array_iters (world_after [Array_iter_next (Some 1%positive)
                                     (out_cell null_value)] array_iter_world)
         !! b
         = array_iters array_iter_world !! b)
  /\ (forall p,
         p <> in_array_iter_next ->
         pool p (tls (world_after [Array_iter_next (Some 1%positive)
                                     (out_cell null_value)] array_iter_world))
         = pool p (tls array_iter_world)).
Proof.
  exact (proj1 (@iter_next_frame sample_engine) (Some 1%positive)
           (out_cell null_value)
           (true, out_cell {| impl := Some (slot_of in_array_iter_next 1);
                              doc := None |})
           array_iter_world
           (world_after [Array_iter_next (Some 1%positive)
                           (out_cell null_value)] array_iter_world)
           eq_refl).
Defined.

Lemma exec_returns_after {E : Engine} (c : api_call) (w : world) r :
  returned (exec c w) = Some r -> exec c w = Returns r (world_after [c] w).
Proof.
  unfold world_after. simpl. unfold bind.
  destruct (exec c w); simpl; intros [=]. subst. reflexivity.
Qed.

Lemma slot_reused_after_256_witness :
  slot_of in_get_field 1 = slot_of in_get_field 1.
Proof.
  apply (@slot_reused_after_256 sample_engine get_field_a get_field_b
           sample_world field_a_world
           (world_after wrap_calls field_a_world)
           (world_after [get_field_b] (world_after wrap_calls field_a_world))
           (R_error_value FJ_SUCCESS (out_cell field_a))
           (R_error_value FJ_SUCCESS (out_cell field_a))
           wrap_calls (results_after wrap_calls field_a_world)
           in_get_field (slot_of in_get_field 1) (slot_of in_get_field 1)).
  - reflexivity.
  - reflexivity.
  - reflexivity.
  - apply run_world_after. vm_compute. eexists. reflexivity.
  - vm_compute. reflexivity.
  - apply exec_returns_after. vm_compute. reflexivity.
  - reflexivity.
  - reflexivity.
Defined.

Lemma messages_identify_codes_witness :
  EMPTY = EMPTY
  \/ (exists n1 n2, EMPTY = UNLISTED_CODE n1 /\ EMPTY = UNLISTED_CODE n2).
Proof. apply (messages_identify_codes EMPTY EMPTY). reflexivity. Defined.

Lemma parser_new_cases_witness :
  (Some 1%positive = None
   /\ head (alloc_script (initial_world (H := sample_engine) [])) = Some false
   /\ parsers parser_world = parsers (initial_world (H := sample_engine) []))
  \/ (exists a,
         Some 1%positive = Some a
         /\ head (alloc_script (initial_world (H := sample_engine) []))
            <> Some false
         /\ parsers (initial_world (H := sample_engine) []) !! a = None
         /\ parsers parser_world
            = <[a := {| parser :=
                          {| max_capacity :=
                               if (0 =? 0)%N
                               then @SIMDJSON_MAXSIZE_BYTES sample_engine
                               else 0%N |} |}]>
                (parsers (initial_world (H := sample_engine) []))).
Proof.
  exact (@parser_new_cases sample_engine 0%N (Some 1%positive)
           (initial_world []) parser_world eq_refl).
Defined.

Lemma parse_then_free_witness :
  (exists w'',
      fj_document_free (H := sample_engine) (Some 1%positive) sample_world
      = Returns tt w''
      /\ documents w'' = documents parser_world
      /\ documents w'' !! 1%positive = None)
  /\ fj_document_free (H := sample_engine) None sample_world
     = Returns tt sample_world.
Proof.
  exact (@parse_then_free sample_engine (Some 1%positive) (Some sample_text)
           (text_len sample_text) None 1%positive parser_world sample_world
           eq_refl).
Defined.
